(** * Load generator and aggregate monitor (scripts/local)

    A shallow embedding of [flexprice_ingest.py] (event synthesizer, poster,
    batch scheduler) and [clickhouse_query_load.py] (aggregate monitor),
    followed by the properties of the natural-language specification that
    speak about them.

    Conventions of the embedding:
    - Python integers are [Z]; [%] with a positive right operand is
      [Z.modulo] (both round towards minus infinity).
    - Durations are integers in milliseconds: [INITIAL_BACKOFF = 0.1] s is
      [100], [time.sleep(1)] is [Sleep 1000], [QUERY_INTERVAL = 0.01] s is
      [10].  The only arithmetic the scripts do on a duration is doubling,
      which is exact on binary floating point numbers.
    - What the scripts do to the outside world (HTTP requests, log lines,
      sleeps, queries) is recorded as a trace, a list of effects in program
      order.  What the outside world answers (the fresh UUIDs, the replies
      of the ingestion endpoint, the replies of the store) is an argument
      of the embedded function. *)

From Stdlib Require Import ZArith List String Ascii Bool Lia DecimalString.
Import ListNotations.
Local Open Scope string_scope.
Local Open Scope Z_scope.
Local Open Scope list_scope.

(** String concatenation, kept apart from the [++] of lists. *)
Infix "+:+" := String.append (at level 60, right associativity).

(* ================================================================= *)
(** ** Python built-ins used by the scripts *)

Module Py.

(** [str(n)] and the [{n}] of an f-string, for an integer. *)
Definition str_int (n : Z) : string := NilZero.string_of_int (Z.to_int n).

(** [len(l)]. *)
Definition len {A} (l : list A) : Z := Z.of_nat (List.length l).

(** [l[k]]: a negative index counts from the end, an index out of range
    raises [IndexError] ([None]). *)
Definition getitem {A} (l : list A) (k : Z) : option A :=
  if (0 <=? k) && (k <? len l) then nth_error l (Z.to_nat k)
  else if (- len l <=? k) && (k <? 0) then nth_error l (Z.to_nat (len l + k))
  else None.

(** The loop [i = start; while i < stop: yield i; i += step], cut after
    [fuel] elements. *)
Fixpoint range_up (fuel : nat) (i stop step : Z) : list Z :=
  match fuel with
  | O => []
  | S fuel' => if i <? stop then i :: range_up fuel' (i + step) stop step else []
  end.

Fixpoint range_down (fuel : nat) (i stop step : Z) : list Z :=
  match fuel with
  | O => []
  | S fuel' => if stop <? i then i :: range_down fuel' (i + step) stop step else []
  end.

(** [range(start, stop, step)]; a zero step raises [ValueError] ([None]).
    A range with a step of at least one has at most [stop - start]
    elements, which is the fuel given to the loop. *)
Definition range3 (start stop step : Z) : option (list Z) :=
  if step =? 0 then None
  else if 0 <? step then Some (range_up (Z.to_nat (stop - start)) start stop step)
  else Some (range_down (Z.to_nat (start - stop)) start stop step).

(** [range(start, stop)]. *)
Definition range (start stop : Z) : list Z :=
  range_up (Z.to_nat (stop - start)) start stop 1.

(** [needle in haystack] on strings. *)
Fixpoint contains (needle haystack : string) : bool :=
  String.prefix needle haystack ||
  match haystack with
  | EmptyString => false
  | String _ rest => contains needle rest
  end.

(** A list comprehension whose element expression may raise. *)
Fixpoint comprehension {A B} (f : A -> option B) (l : list A) : option (list B) :=
  match l with
  | [] => Some []
  | x :: rest =>
      match f x with
      | None => None
      | Some y =>
          match comprehension f rest with
          | None => None
          | Some ys => Some (y :: ys)
          end
      end
  end.

End Py.

(** Log levels of the [logging] module that the scripts use. *)
Inductive Level : Type := INFO | ERROR.

(* ================================================================= *)
(** ** flexprice_ingest.py *)

Module Ingest.

(** *** Constants for ingestion *)

Definition NUM_EVENTS : Z := 1000000.
Definition BATCH_SIZE : Z := 150.
Definition REQUESTS_PER_SEC : Z := 150.
Definition API_ENDPOINT : string := "http://localhost:8080/v1/events/ingest".
Definition MAX_RETRIES : Z := 1.
Definition INITIAL_BACKOFF : Z := 100.

(** *** Events *)

Record Properties : Type := {
  bytes_transferred : Z;
  duration_ms : Z;
  status_code : Z;
  test_group : string
}.

Record Event : Type := {
  event_id : string;
  event_name : string;
  external_customer_id : string;
  source : string;
  properties : Properties
}.

(** The two local lists of [generate_event]. *)
Definition sources : list string := ["web"; "mobile"].
Definition event_types : list string := ["gpu_time"].

(** [generate_event(index)].  [uuid4] is the string that [str(uuid4())]
    returns in this call; the two list lookups can raise [IndexError]. *)
Definition generate_event (uuid4 : string) (index : Z) : option Event :=
  match Py.getitem event_types (index mod Py.len event_types) with
  | None => None
  | Some name =>
      match Py.getitem sources (index mod Py.len sources) with
      | None => None
      | Some src =>
          Some {| event_id := uuid4;
                  event_name := name;
                  external_customer_id := "cus_loadtest_5";
                  source := src;
                  properties :=
                    {| bytes_transferred := 100 + (index mod 1000);
                       duration_ms := 50 + (index mod 200);
                       status_code := 200 + ((index mod 3) * 100);
                       test_group := "group_" +:+ Py.str_int (index mod 10) |} |}
      end
  end.

(** Everything of an event but its identifier. *)
Definition content (e : Event) : string * string * string * Properties :=
  (event_name e, external_customer_id e, source e, properties e).

(** *** The poster *)

(** What one [requests.post] comes back with: a response, or an
    exception ([e] is [str(e)]) such as a refused connection or the
    timeout of 5 seconds. *)
Inductive Reply : Type :=
| Response (status : Z) (text : string)
| Raises (e : string).

Inductive Effect : Type :=
| Post (event : Event)            (* requests.post(API_ENDPOINT, data=json.dumps(event), ...) *)
| Log (level : Level) (msg : string)
| Sleep (ms : Z).

(** How one iteration of the [while] loop ends: with a [return], or
    with new values of [retries] and [backoff]. *)
Inductive Control : Type :=
| Return (result : bool)
| Continue (retries backoff : Z).

(** The body of the [while] loop of [post_event], for the reply that
    the request of this iteration gets. *)
Definition attempt (event : Event) (reply : Reply) (retries backoff : Z)
  : list Effect * Control :=
  match reply with
  | Response status text =>
      if status =? 202 then
        ([Post event;
          Log INFO ("Event ingested successfully: " +:+ event_id event)],
         Return true)
      else if existsb (Z.eqb status) [429; 500] then
        ([Post event; Sleep backoff], Continue (retries + 1) (backoff * 2))
      else
        ([Post event;
          Log ERROR ("Unexpected status code: " +:+ Py.str_int status +:+ " - " +:+ text)],
         Return false)
  | Raises e =>
      ([Post event; Log ERROR ("Failed to post event: " +:+ e); Sleep backoff],
       Continue (retries + 1) (backoff * 2))
  end.

Section Poster.

(** [MAX_RETRIES] and [INITIAL_BACKOFF], as parameters. *)
Variables max_retries initial_backoff : Z.

(** [server n] is the reply to the request number [n] of the call,
    counted from zero. *)
Variable server : nat -> Reply.

(** [while retries <= MAX_RETRIES: ...; return False], with [made]
    requests behind it.  [None]: out of fuel. *)
Fixpoint post_loop (fuel : nat) (event : Event) (made : nat) (retries backoff : Z)
  : option (list Effect * bool) :=
  if retries <=? max_retries then
    match fuel with
    | O => None
    | S fuel' =>
        match attempt event (server made) retries backoff with
        | (effects, Return result) => Some (effects, result)
        | (effects, Continue retries' backoff') =>
            match post_loop fuel' event (S made) retries' backoff' with
            | None => None
            | Some (later, result) => Some (effects ++ later, result)
            end
        end
    end
  else Some ([], false).

(** [post_event(event)]: [retries] goes up by one in every iteration
    that does not return, so [max_retries + 1] iterations are enough. *)
Definition post_event_with (event : Event) : option (list Effect * bool) :=
  post_loop (S (Z.to_nat max_retries)) event 0 0 initial_backoff.

End Poster.

Definition post_event : (nat -> Reply) -> Event -> option (list Effect * bool) :=
  post_event_with MAX_RETRIES INITIAL_BACKOFF.

(** Projections of a trace. *)
Definition is_post (x : Effect) : bool := match x with Post _ => true | _ => false end.
Definition is_log (x : Effect) : bool := match x with Log _ _ => true | _ => false end.
Definition is_sleep (x : Effect) : bool := match x with Sleep _ => true | _ => false end.

Definition requests (trace : list Effect) : list Effect := filter is_post trace.
Definition log_lines (trace : list Effect) : list Effect := filter is_log trace.
Definition sleeps (trace : list Effect) : list Effect := filter is_sleep trace.

(** *** The scheduler *)

(** What the thread that runs [seed_events_clickhouse] does, in order. *)
Inductive Action : Type :=
| Info (msg : string)           (* logger.info(msg) *)
| Submit (batch : list Event)   (* executor.map(post_event, batch), result dropped *)
| Pace (ms : Z)                 (* time.sleep(1) *)
| Shutdown.                     (* leaving the with block: executor.shutdown(wait=True) *)

Section Scheduler.

(** [uuid4 j] is the identifier drawn for the event of index [j]. *)
Variable uuid4 : Z -> string.

(** [NUM_EVENTS] and [BATCH_SIZE], as parameters. *)
Variables num_events batch_size : Z.

(** [[generate_event(j) for j in range(i, min(i + BATCH_SIZE, NUM_EVENTS))]] *)
Definition make_batch (i : Z) : option (list Event) :=
  Py.comprehension (fun j => generate_event (uuid4 j) j)
                   (Py.range i (Z.min (i + batch_size) num_events)).

(** The body of the [for] loop, for the values [starts] of [i]. *)
Fixpoint for_batches (starts : list Z) : option (list Action) :=
  match starts with
  | [] => Some []
  | i :: rest =>
      match make_batch i with
      | None => None
      | Some batch =>
          match for_batches rest with
          | None => None
          | Some later => Some (Submit batch :: Pace 1000 :: later)
          end
      end
  end.

(** [seed_events_clickhouse(config)]; [None] when a built-in raises. *)
Definition seed_events_clickhouse_with : option (list Action) :=
  match Py.range3 0 num_events batch_size with
  | None => None
  | Some starts =>
      match for_batches starts with
      | None => None
      | Some body =>
          Some (Info "Starting event ingestion..." :: body
                ++ [Shutdown; Info "Event ingestion completed"])
      end
  end.

End Scheduler.

Definition seed_events_clickhouse (uuid4 : Z -> string) : option (list Action) :=
  seed_events_clickhouse_with uuid4 NUM_EVENTS BATCH_SIZE.

(** The batches handed to the pool, in order. *)
Fixpoint dispatched (program : list Action) : list (list Event) :=
  match program with
  | [] => []
  | Submit batch :: rest => batch :: dispatched rest
  | _ :: rest => dispatched rest
  end.

(** *** The scheduler and the worker pool

    [Executor.map] queues one call of [post_event] per event and returns
    an iterator over the results without waiting for any of them; the
    script never reads that iterator.  A worker of the pool takes a
    queued call and runs it to its [return] (it settles).  Leaving the
    [with] block calls [shutdown(wait=True)], which returns once every
    queued call has settled. *)

Record Pool : Type := {
  unsettled : list Event;     (* submitted calls that have not returned yet *)
  todo : list Action          (* what the scheduler has still to do *)
}.

Inductive Label : Type :=
| Scheduler (a : Action)
| Settles (e : Event).

Inductive step : Pool -> Label -> Pool -> Prop :=
| step_info msg q rest :
    step {| unsettled := q; todo := Info msg :: rest |}
         (Scheduler (Info msg))
         {| unsettled := q; todo := rest |}
| step_submit batch q rest :
    step {| unsettled := q; todo := Submit batch :: rest |}
         (Scheduler (Submit batch))
         {| unsettled := q ++ batch; todo := rest |}
| step_pace ms q rest :
    step {| unsettled := q; todo := Pace ms :: rest |}
         (Scheduler (Pace ms))
         {| unsettled := q; todo := rest |}
| step_shutdown rest :
    step {| unsettled := []; todo := Shutdown :: rest |}
         (Scheduler Shutdown)
         {| unsettled := []; todo := rest |}
| step_settles q1 e q2 rest :
    step {| unsettled := q1 ++ e :: q2; todo := rest |}
         (Settles e)
         {| unsettled := q1 ++ q2; todo := rest |}.

(** Runs of the scheduler and the pool, with the labels of their steps. *)
Inductive run : Pool -> list Label -> Pool -> Prop :=
| run_nil s : run s [] s
| run_cons s l s' ls s'' : step s l s' -> run s' ls s'' -> run s (l :: ls) s''.

Definition start (program : list Action) : Pool :=
  {| unsettled := []; todo := program |}.

Definition is_submit (a : Action) : bool :=
  match a with Submit _ => true | _ => false end.

End Ingest.


(* ================================================================= *)
(** ** clickhouse_query_load.py *)

Module Monitor.

(** Query interval, in milliseconds. *)
Definition QUERY_INTERVAL : Z := 10.

(** The five queries of a cycle, under the names of the variables that
    hold their text:
    - [storage_query]: sum and count of [bytes_transferred] of the
      [gpu_time] events;
    - [ingestion_lag_query]: per minute of the last hour, the number of
      events and the min, max and avg latency from timestamp to
      ingestion;
    - [summarise_query]: sums of [duration_ms] grouped by tenant,
      customer and event name;
    - [event_count_query]: the number of [gpu_time] events;
    - [duration_query]: avg and max of [duration_ms] of the [gpu_time]
      events. *)
Inductive Query : Type :=
| storage_query
| ingestion_lag_query
| summarise_query
| event_count_query
| duration_query.

(** A raised exception: whether its class derives from [Exception]
    (a [KeyboardInterrupt] or a [SystemExit] does not), and [str(e)]. *)
Record Raised : Type := {
  is_Exception : bool;
  str : string
}.

(** The [IndexError] of a subscript out of range, on the list of rows
    and on a row (a tuple). *)
Definition IndexError_list : Raised :=
  {| is_Exception := true; str := "list index out of range" |}.
Definition IndexError_tuple : Raised :=
  {| is_Exception := true; str := "tuple index out of range" |}.

Inductive Effect : Type :=
| Connect                          (* clickhouse_connect.get_client(...) *)
| Exec (q : Query)                 (* client.query(q) *)
| Log (level : Level) (msg : string)
| Sleep (ms : Z).

(** Code that leaves a trace and either returns or raises. *)
Definition M (A : Type) : Type := list Effect * (Raised + A).

Definition ret {A} (x : A) : M A := ([], inr x).

Definition bind {A B} (m : M A) (k : A -> M B) : M B :=
  match m with
  | (trace, inl e) => (trace, inl e)
  | (trace, inr x) => let (later, r) := k x in (trace ++ later, r)
  end.

Definition raise {A} (e : Raised) : M A := ([], inl e).
Definition emit (x : Effect) : M unit := ([x], inr tt).

(** [try: body; except Exception as e: handler(e)] *)
Definition try_except (body : M unit) (handler : Raised -> M unit) : M unit :=
  match body with
  | (trace, inl e) =>
      if is_Exception e
      then let (later, r) := handler e in (trace ++ later, r)
      else (trace, inl e)
  | done => done
  end.

Notation "x <- c1 ;; c2" := (bind c1 (fun x => c2))
  (at level 61, c1 at next level, right associativity).
Notation "c1 ;; c2" := (bind c1 (fun _ => c2))
  (at level 61, right associativity).

Section Store.

(** The scalar values of a row, and how an f-string prints a value
    and a list of rows. *)
Variable Value : Type.
Variable fmt_value : Value -> string.
Variable fmt_rows : list (list Value) -> string.

(** What [client.query] comes back with. *)
Inductive Reply : Type :=
| Result (result_rows : list (list Value))
| Raises (e : Raised).

Definition client_query (store : Query -> Reply) (q : Query) : M (list (list Value)) :=
  ([Exec q], match store q with Result rows => inr rows | Raises e => inl e end).

(** [seq[k]] *)
Definition subscript {A} (out_of_range : Raised) (seq : list A) (k : Z) : M A :=
  match Py.getitem seq k with
  | Some x => ret x
  | None => raise out_of_range
  end.

Definition logger_info (msg : string) : M unit := emit (Log INFO msg).
Definition logger_error (msg : string) : M unit := emit (Log ERROR msg).
Definition time_sleep (ms : Z) : M unit := emit (Sleep ms).

(** The body of the [try] of one cycle. *)
Definition queries (store : Query -> Reply) : M unit :=
  storage_result <- client_query store storage_query ;;
  first_row <- subscript IndexError_list storage_result 0 ;;
  row <- subscript IndexError_tuple first_row 0 ;;
  logger_info ("Storage Query Result: " +:+ fmt_value row) ;;
  ingestion_lag <- client_query store ingestion_lag_query ;;
  logger_info ("Ingestion Lag Query Result: " +:+ fmt_rows ingestion_lag) ;;
  summarise <- client_query store summarise_query ;;
  logger_info ("Other Query Result: " +:+ fmt_rows summarise) ;;
  event_count <- client_query store event_count_query ;;
  logger_info ("Other Query Result: " +:+ fmt_rows event_count) ;;
  duration_result <- client_query store duration_query ;;
  logger_info ("Duration Query Result: " +:+ fmt_rows duration_result).

(** One iteration of [while True]. *)
Definition cycle (store : Query -> Reply) : M unit :=
  try_except (queries store)
             (fun e => logger_error ("Failed to execute queries: " +:+ str e)) ;;
  time_sleep QUERY_INTERVAL.

(** [store k] answers the queries of cycle [k], counted from zero. *)
Variable store : nat -> Query -> Reply.

(** The first [n] iterations of [while True], from cycle [k] on. *)
Fixpoint while_true (n : nat) (k : nat) : M unit :=
  match n with
  | O => ret tt
  | S n' => cycle (store k) ;; while_true n' (S k)
  end.

(** [monitor_queries(config)], cut after [n] cycles.  [connect] is
    what [get_client] raises, if it raises. *)
Definition monitor_queries (connect : option Raised) (n : nat) : M unit :=
  logger_info "Connecting to ClickHouse..." ;;
  emit Connect ;;
  match connect with Some e => raise e | None => ret tt end ;;
  logger_info "Starting query monitoring..." ;;
  while_true n 0.

End Store.

Arguments Result {Value} result_rows.
Arguments Raises {Value} e.
Arguments client_query {Value} store q.
Arguments queries {Value} fmt_value fmt_rows store.
Arguments cycle {Value} fmt_value fmt_rows store.
Arguments while_true {Value} fmt_value fmt_rows store n k.
Arguments monitor_queries {Value} fmt_value fmt_rows store connect n.

(** Projections of a trace. *)
Fixpoint executed (trace : list Effect) : list Query :=
  match trace with
  | [] => []
  | Exec q :: rest => q :: executed rest
  | _ :: rest => executed rest
  end.

Fixpoint logged (level : Level) (trace : list Effect) : list string :=
  match trace with
  | [] => []
  | Log INFO msg :: rest =>
      match level with INFO => msg :: logged level rest | ERROR => logged level rest end
  | Log ERROR msg :: rest =>
      match level with ERROR => msg :: logged level rest | INFO => logged level rest end
  | _ :: rest => logged level rest
  end.

End Monitor.

(* ================================================================= *)
(** ** The address of the store *)

Module Address.

(** [s.split(sep)], for a separator of one character. *)
Fixpoint split (sep : ascii) (s : string) : list string :=
  match s with
  | EmptyString => [""]
  | String a rest =>
      if Ascii.eqb a sep then "" :: split sep rest
      else match split sep rest with
           | part :: parts => String a part :: parts
           | [] => [String a ""]
           end
  end.

(** [config["clickhouse"]["address"].split(":")[0]], the [host] that
    both scripts give to [get_client]; [None] when the subscript raises
    [IndexError]. *)
Definition host (address : string) : option string :=
  Py.getitem (split ":" address) 0.

(** [config['clickhouse']['address'].split(':')[1]], the string that
    [dynamodb_replicate.py] gives to [int] for the [port]. *)
Definition port_field (address : string) : option string :=
  Py.getitem (split ":" address) 1.

(** The string has a colon. *)
Fixpoint has_colon (s : string) : bool :=
  match s with
  | EmptyString => false
  | String a rest => Ascii.eqb a ":" || has_colon rest
  end.

End Address.

(* ================================================================= *)
(** ** main_ingest_and_query.py *)

Module Launcher.

(** The [choices] of [--mode]. *)
Definition choices : list string := ["ingest"; "query"].

(** [args.mode] after [parser.parse_args()], for the value that the
    command line gives to [--mode], if it gives one: the default is
    ["ingest"], and a value outside [choices] makes [argparse] exit the
    process ([None]). *)
Definition parse_mode (given : option string) : option string :=
  match given with
  | None => Some "ingest"
  | Some mode => if existsb (String.eqb mode) choices then Some mode else None
  end.

Inductive Step : Type :=
| Logged (level : Level) (msg : string)
| Seeds                     (* seed_events_clickhouse(CONFIG) *)
| Monitors.                 (* monitor_queries(CONFIG) *)

(** [main()]. *)
Definition main (given : option string) : option (list Step) :=
  match parse_mode given with
  | None => None
  | Some mode =>
      Some (if String.eqb mode "ingest" then
              [Logged INFO "Running in ingest mode..."; Seeds]
            else if String.eqb mode "query" then
              [Logged INFO "Running in query mode..."; Monitors]
            else
              [Logged ERROR "Invalid mode specified"])
  end.

End Launcher.

(* ================================================================= *)
(** ** The event synthesizer *)

Module SynthesizerFacts.
Import Ingest.

Example generate_event_7 :
  generate_event "u" 7 =
  Some {| event_id := "u"; event_name := "gpu_time";
          external_customer_id := "cus_loadtest_5"; source := "mobile";
          properties :=
            {| bytes_transferred := 107; duration_ms := 57;
               status_code := 300; test_group := "group_7" |} |}.
Proof. reflexivity. Qed.

(** A negative index is synthesized too: [%] rounds down. *)
Example generate_event_minus_1 :
  generate_event "u" (-1) =
  Some {| event_id := "u"; event_name := "gpu_time";
          external_customer_id := "cus_loadtest_5"; source := "mobile";
          properties :=
            {| bytes_transferred := 1099; duration_ms := 249;
               status_code := 400; test_group := "group_9" |} |}.
Proof. reflexivity. Qed.

Lemma getitem_event_types (i : Z) :
  Py.getitem event_types (i mod Py.len event_types) = Some "gpu_time".
Proof.
  change (Py.len event_types) with 1. now rewrite Z.mod_1_r.
Qed.

Lemma getitem_sources (i : Z) :
  Py.getitem sources (i mod Py.len sources)
  = Some (if i mod 2 =? 0 then "web" else "mobile").
Proof.
  change (Py.len sources) with 2.
  assert (H : 0 <= i mod 2 < 2) by (apply Z.mod_pos_bound; lia).
  assert (C : i mod 2 = 0 \/ i mod 2 = 1) by lia.
  destruct C as [-> | ->]; reflexivity.
Qed.

(** The event of index [i] with the identifier [uuid4]. *)
Definition event_of (uuid4 : string) (i : Z) : Event :=
  {| event_id := uuid4;
     event_name := "gpu_time";
     external_customer_id := "cus_loadtest_5";
     source := if i mod 2 =? 0 then "web" else "mobile";
     properties :=
       {| bytes_transferred := 100 + i mod 1000;
          duration_ms := 50 + i mod 200;
          status_code := 200 + (i mod 3) * 100;
          test_group := "group_" +:+ Py.str_int (i mod 10) |} |}.

(** No lookup of [generate_event] raises, and the event is given by
    the index and the identifier drawn. *)
Lemma generate_event_eq (uuid4 : string) (i : Z) :
  generate_event uuid4 i = Some (event_of uuid4 i).
Proof.
  unfold generate_event.
  now rewrite getitem_event_types, getitem_sources.
Qed.

(** C7.  For a non-negative index [i], two calls of [generate_event]
    (which draw the identifiers [u1] and [u2]) both return an event,
    the two events agree on everything but the identifier, and the
    fields are the stated functions of [i]: [bytes_transferred] is
    [100 + i mod 1000], [duration_ms] is [50 + i mod 200], [status_code]
    is [200 + (i mod 3) * 100], [test_group] is ["group_"] followed by
    [i mod 10], and [source] is the entry [i mod len(sources)] of
    [sources].  The identifier drawn is the only thing a call takes from
    outside. *)
Theorem generate_event_deterministic (i : Z) (u1 u2 : string) :
  0 <= i ->
  exists e1 e2 : Event,
    generate_event u1 i = Some e1 /\
    generate_event u2 i = Some e2 /\
    event_id e1 = u1 /\ event_id e2 = u2 /\
    content e1 = content e2 /\
    bytes_transferred (properties e1) = 100 + i mod 1000 /\
    duration_ms (properties e1) = 50 + i mod 200 /\
    status_code (properties e1) = 200 + (i mod 3) * 100 /\
    test_group (properties e1) = "group_" +:+ Py.str_int (i mod 10) /\
    Py.getitem sources (i mod Py.len sources) = Some (source e1) /\
    sources = ["web"; "mobile"].
Proof.
  intros _.
  eexists; eexists.
  split; [apply generate_event_eq|].
  split; [apply generate_event_eq|].
  cbn [event_id content event_name external_customer_id source properties
       bytes_transferred duration_ms status_code test_group].
  repeat split.
  apply getitem_sources.
Qed.

Lemma generate_event_deterministic_witness :
  exists e1 e2 : Event,
    generate_event "a" 1234 = Some e1 /\
    generate_event "b" 1234 = Some e2 /\
    event_id e1 = "a" /\ event_id e2 = "b" /\
    content e1 = content e2 /\
    bytes_transferred (properties e1) = 100 + 1234 mod 1000 /\
    duration_ms (properties e1) = 50 + 1234 mod 200 /\
    status_code (properties e1) = 200 + (1234 mod 3) * 100 /\
    test_group (properties e1) = "group_" +:+ Py.str_int (1234 mod 10) /\
    Py.getitem sources (1234 mod Py.len sources) = Some (source e1) /\
    sources = ["web"; "mobile"].
Proof. apply (generate_event_deterministic 1234 "a" "b"). lia. Defined.

(** C10.  For every index, the synthesized event has the event name
    ["gpu_time"] and the customer ["cus_loadtest_5"]; the list of event
    names has this one entry. *)
Theorem generate_event_constant_fields (i : Z) (uuid4 : string) :
  exists e : Event,
    generate_event uuid4 i = Some e /\
    event_name e = "gpu_time" /\
    external_customer_id e = "cus_loadtest_5" /\
    event_types = ["gpu_time"].
Proof.
  eexists. split; [apply generate_event_eq|]. repeat split.
Qed.

End SynthesizerFacts.

(* ================================================================= *)
(** ** The poster *)

Module PosterFacts.
Import Ingest.

(** The three outcomes of a submission attempt, read off the way the
    loop body ends. *)
Inductive Outcome : Type := accepted | retryable | rejected.

Definition outcome (c : Control) : Outcome :=
  match c with
  | Return true => accepted
  | Return false => rejected
  | Continue _ _ => retryable
  end.

(** The replies after which the loop goes round again. *)
Definition retried (reply : Reply) : bool :=
  match reply with
  | Response status _ => (status =? 429) || (status =? 500)
  | Raises _ => true
  end.

(** The trace without its log lines: requests and sleeps. *)
Definition timing (trace : list Effect) : list Effect :=
  filter (fun x => negb (is_log x)) trace.

(** A sample event and sample servers. *)
Definition sample : Event :=
  {| event_id := "0b5c7f1e-64b3-4c55-9a51-0d7a3c1f2e90";
     event_name := "gpu_time";
     external_customer_id := "cus_loadtest_5";
     source := "web";
     properties := {| bytes_transferred := 100; duration_ms := 50;
                      status_code := 200; test_group := "group_0" |} |}.

Definition always (status : Z) (text : string) : nat -> Reply :=
  fun _ => Response status text.

Example post_event_202 :
  post_event (always 202 "Accepted") sample
  = Some ([Post sample;
           Log INFO "Event ingested successfully: 0b5c7f1e-64b3-4c55-9a51-0d7a3c1f2e90"],
          true).
Proof. reflexivity. Qed.

Example post_event_200 :
  post_event (always 200 "OK") sample
  = Some ([Post sample; Log ERROR "Unexpected status code: 200 - OK"], false).
Proof. reflexivity. Qed.

Example post_event_503 :
  post_event (always 503 "Service Unavailable") sample
  = Some ([Post sample;
           Log ERROR "Unexpected status code: 503 - Service Unavailable"], false).
Proof. reflexivity. Qed.

Example post_event_500 :
  post_event (always 500 "Internal Server Error") sample
  = Some ([Post sample; Sleep 100; Post sample; Sleep 200], false).
Proof. reflexivity. Qed.

Example post_event_timeout :
  post_event (fun _ => Raises "Read timed out.") sample
  = Some ([Post sample; Log ERROR "Failed to post event: Read timed out."; Sleep 100;
           Post sample; Log ERROR "Failed to post event: Read timed out."; Sleep 200],
          false).
Proof. reflexivity. Qed.

Example post_event_429_then_202 :
  post_event (fun n => match n with O => Response 429 "" | _ => Response 202 "" end) sample
  = Some ([Post sample; Sleep 100; Post sample;
           Log INFO "Event ingested successfully: 0b5c7f1e-64b3-4c55-9a51-0d7a3c1f2e90"],
          true).
Proof. reflexivity. Qed.

(** *** The loop body *)

Lemma attempt_202 ev text r b :
  attempt ev (Response 202 text) r b
  = ([Post ev; Log INFO ("Event ingested successfully: " +:+ event_id ev)], Return true).
Proof. reflexivity. Qed.

Lemma attempt_429_500 ev s text r b :
  s = 429 \/ s = 500 ->
  attempt ev (Response s text) r b
  = ([Post ev; Sleep b], Continue (r + 1) (b * 2)).
Proof. intros [-> | ->]; reflexivity. Qed.

Lemma attempt_other ev s text r b :
  s <> 202 -> s <> 429 -> s <> 500 ->
  attempt ev (Response s text) r b
  = ([Post ev;
      Log ERROR ("Unexpected status code: " +:+ Py.str_int s +:+ " - " +:+ text)],
     Return false).
Proof.
  intros H1 H2 H3. unfold attempt. cbn [existsb].
  destruct (Z.eqb_spec s 202); [contradiction|].
  destruct (Z.eqb_spec s 429); [contradiction|].
  destruct (Z.eqb_spec s 500); [contradiction|].
  reflexivity.
Qed.

Lemma status_cases (s : Z) :
  s = 202 \/ (s = 429 \/ s = 500) \/ (s <> 202 /\ s <> 429 /\ s <> 500).
Proof. lia. Qed.

Lemma attempt_retried ev reply r b :
  retried reply = true ->
  exists lines,
    attempt ev reply r b = (Post ev :: lines ++ [Sleep b], Continue (r + 1) (b * 2))
    /\ timing lines = []
    /\ match reply with Response _ _ => lines = [] | Raises _ => True end.
Proof.
  destruct reply as [s text | e]; cbn [retried]; intros H.
  - exists []. rewrite attempt_429_500 by lia. now repeat split.
  - eexists [_]. repeat split.
Qed.

(** The log lines that the reply to one request leaves. *)
Definition logged_for (ev : Event) (reply : Reply) : list Effect :=
  match reply with
  | Response s text =>
      if s =? 202 then
        [Log INFO ("Event ingested successfully: " +:+ event_id ev)]
      else if (s =? 429) || (s =? 500) then []
      else [Log ERROR ("Unexpected status code: " +:+ Py.str_int s +:+ " - " +:+ text)]
  | Raises e => [Log ERROR ("Failed to post event: " +:+ e)]
  end.

Definition is_info (x : Effect) : bool :=
  match x with Log INFO _ => true | _ => false end.

Lemma flat_map_seq_shift {A} (f : nat -> list A) (a n : nat) :
  flat_map f (seq (S a) n) = flat_map (fun k => f (S k)) (seq a n).
Proof.
  rewrite <- seq_shift, !flat_map_concat_map, map_map. reflexivity.
Qed.

Lemma contains_self (x : string) : Py.contains x x = true.
Proof.
  assert (H : String.prefix x x = true) by (induction x as [|c x IH]; cbn;
    [reflexivity | destruct (Ascii.ascii_dec c c); [assumption | contradiction]]).
  destruct x; cbn [Py.contains]; rewrite H; reflexivity.
Qed.

Lemma contains_append (p x : string) : Py.contains x (p +:+ x) = true.
Proof.
  induction p as [|c p IH]; cbn [String.append].
  - apply contains_self.
  - cbn [Py.contains]. rewrite IH. apply orb_true_r.
Qed.

(** Requests [b], [2 b], [4 b], ... apart: [n] requests, a sleep after
    each of them, the one after request [k] (from zero) of [b * 2^k]. *)
Definition backoff_schedule (ev : Event) (b : Z) (n : nat) : list Effect :=
  flat_map (fun k => [Post ev; Sleep (b * 2 ^ Z.of_nat k)]) (seq 0 n).

Lemma backoff_schedule_S ev b n :
  backoff_schedule ev b (S n) = Post ev :: Sleep b :: backoff_schedule ev (b * 2) n.
Proof.
  unfold backoff_schedule. cbn [seq flat_map app].
  rewrite flat_map_seq_shift. change (Z.of_nat 0) with 0.
  rewrite Z.pow_0_r, Z.mul_1_r. do 2 f_equal.
  apply flat_map_ext. intros k. do 3 f_equal.
  rewrite Nat2Z.inj_succ, Z.pow_succ_r by lia. ring.
Qed.

Lemma backoff_schedule_requests ev b n :
  List.length (requests (backoff_schedule ev b n)) = n.
Proof.
  revert b. induction n as [|n IH]; intros b; [reflexivity|].
  rewrite backoff_schedule_S. cbn [requests filter is_post List.length].
  f_equal. apply IH.
Qed.

Lemma backoff_schedule_nth ev b n k :
  (k < n)%nat ->
  nth_error (backoff_schedule ev b n) (2 * k) = Some (Post ev)
  /\ nth_error (backoff_schedule ev b n) (2 * k + 1)
     = Some (Sleep (b * 2 ^ Z.of_nat k)).
Proof.
  revert b k. induction n as [|n IH]; intros b k Hk; [lia|].
  rewrite backoff_schedule_S. destruct k as [|k].
  - cbn. rewrite Z.mul_1_r. split; reflexivity.
  - replace (2 * S k)%nat with (S (S (2 * k))) by lia.
    replace (S (S (2 * k)) + 1)%nat with (S (S (2 * k + 1))) by lia.
    cbn [nth_error].
    destruct (IH (b * 2) k ltac:(lia)) as [-> ->].
    split; [reflexivity|]. do 2 f_equal.
    rewrite Nat2Z.inj_succ, Z.pow_succ_r by lia. ring.
Qed.

Lemma requests_timing (trace : list Effect) :
  requests (timing trace) = requests trace.
Proof.
  unfold requests, timing.
  induction trace as [|x t IH]; [reflexivity|].
  destruct x; cbn; rewrite ?IH; reflexivity.
Qed.

(** *** The loop *)

Section Loop.
Variables max_retries initial_backoff : Z.
Variable server : nat -> Reply.

Let loop := post_loop max_retries server.

Lemma post_loop_over fuel ev made r b :
  max_retries < r -> loop fuel ev made r b = Some ([], false).
Proof.
  intros H. unfold loop. destruct fuel; cbn [post_loop];
    destruct (Z.leb_spec r max_retries); (lia || reflexivity).
Qed.

Lemma post_loop_step fuel ev made r b :
  r <= max_retries ->
  loop (S fuel) ev made r b =
  match attempt ev (server made) r b with
  | (effects, Return result) => Some (effects, result)
  | (effects, Continue r' b') =>
      match loop fuel ev (S made) r' b' with
      | None => None
      | Some (later, result) => Some (effects ++ later, result)
      end
  end.
Proof.
  intros H. unfold loop. cbn [post_loop].
  destruct (Z.leb_spec r max_retries); [reflexivity | lia].
Qed.

(** The fuel of [post_event] is enough: the loop returns. *)
Lemma post_loop_returns fuel ev made r b :
  (Z.to_nat (max_retries + 1 - r) <= fuel)%nat ->
  exists trace result, loop fuel ev made r b = Some (trace, result).
Proof.
  revert made r b. induction fuel as [|fuel IH]; intros made r b Hfuel.
  - do 2 eexists. apply post_loop_over. lia.
  - destruct (Z.leb_spec r max_retries) as [Hle | Hgt].
    + rewrite post_loop_step by assumption.
      destruct (server made) as [s text | e].
      * destruct (status_cases s) as [-> | [Hs | (H1 & H2 & H3)]].
        -- rewrite attempt_202. eauto.
        -- rewrite attempt_429_500 by assumption.
           destruct (IH (S made) (r + 1) (b * 2)) as (t & res & ->); [lia|]. eauto.
        -- rewrite attempt_other by assumption. eauto.
      * cbn [attempt].
        destruct (IH (S made) (r + 1) (b * 2)) as (t & res & ->); [lia|]. eauto.
    + do 2 eexists. apply post_loop_over. lia.
Qed.

(** A run in which every reply is one the loop goes round on: it uses
    up the budget, and sleeps twice as long after every request. *)
Lemma post_loop_all_retried fuel ev made r b :
  fuel = Z.to_nat (max_retries + 1 - r) ->
  (forall k, (k < fuel)%nat -> retried (server (made + k)) = true) ->
  exists trace,
    loop fuel ev made r b = Some (trace, false)
    /\ timing trace = backoff_schedule ev b fuel
    /\ ((forall k, (k < fuel)%nat -> exists s text, server (made + k) = Response s text)
        -> log_lines trace = []).
Proof.
  revert made r b. induction fuel as [|fuel IH]; intros made r b Hfuel Hall.
  - exists []. split; [apply post_loop_over; lia | now split].
  - rewrite post_loop_step by lia.
    assert (H0 : retried (server made) = true)
      by (rewrite <- (Nat.add_0_r made); apply Hall; lia).
    destruct (attempt_retried ev _ r b H0) as (lines & -> & Hlines & Hresp).
    destruct (IH (S made) (r + 1) (b * 2)) as (later & -> & Htiming & Hlog).
    { lia. }
    { intros k Hk. replace (S made + k)%nat with (made + S k)%nat by lia.
      apply Hall. lia. }
    eexists. split; [reflexivity|]. split.
    + rewrite backoff_schedule_S, <- Htiming.
      unfold timing in *. cbn [filter is_log negb app].
      rewrite !filter_app, Hlines. reflexivity.
    + intros Hstatus.
      destruct (Hstatus 0%nat) as (s & text & Hs); [lia|].
      rewrite Nat.add_0_r in Hs. rewrite Hs in Hresp. subst lines.
      unfold log_lines in *. cbn [filter is_log app].
      apply Hlog. intros k Hk.
      replace (S made + k)%nat with (made + S k)%nat by lia.
      apply Hstatus. lia.
Qed.

(** The log lines of a run are those of its requests, one after the
    other; a run that returns [True] ends with its only INFO line. *)
Lemma post_loop_lines fuel ev made r b trace result :
  loop fuel ev made r b = Some (trace, result) ->
  log_lines trace
  = flat_map (fun k => logged_for ev (server k))
             (seq made (List.length (requests trace)))
  /\ (result = true ->
      exists earlier,
        trace = earlier
                ++ [Log INFO ("Event ingested successfully: " +:+ event_id ev)]
        /\ filter is_info earlier = []).
Proof.
  revert made r b trace result.
  induction fuel as [|fuel IH]; intros made r b trace result.
  - unfold loop. cbn [post_loop]. destruct (r <=? max_retries); [discriminate|].
    intros [= <- <-]. split; [reflexivity | discriminate].
  - destruct (Z.leb_spec r max_retries) as [Hle | Hgt].
    2:{ rewrite post_loop_over by lia. intros [= <- <-].
        split; [reflexivity | discriminate]. }
    rewrite post_loop_step by assumption.
    unfold logged_for at 1.
    destruct (server made) as [s text | e] eqn:Hreply.
    + destruct (status_cases s) as [-> | [Hs | (H1 & H2 & H3)]].
      * rewrite attempt_202. intros [= <- <-]. cbn.
        rewrite Hreply. cbn. split; [reflexivity|].
        intros _. exists [Post ev]. now split.
      * rewrite attempt_429_500 by assumption.
        destruct (loop fuel ev (S made) (r + 1) (b * 2)) as [[later res]|] eqn:Hlater;
          [|discriminate].
        intros [= <- <-]. apply IH in Hlater. destruct Hlater as [Hlog Hres].
        split.
        -- cbn. rewrite Hreply. cbn [logged_for].
           destruct Hs as [-> | ->]; cbn; exact Hlog.
        -- intros Htrue. destruct (Hres Htrue) as (earlier & -> & Hinfo).
           exists ([Post ev; Sleep b] ++ earlier). split; [reflexivity|].
           exact Hinfo.
      * rewrite attempt_other by assumption. intros [= <- <-]. cbn.
        rewrite Hreply. cbn [logged_for].
        destruct (Z.eqb_spec s 202); [contradiction|].
        destruct (Z.eqb_spec s 429); [contradiction|].
        destruct (Z.eqb_spec s 500); [contradiction|].
        split; [reflexivity | discriminate].
    + cbn [attempt].
      destruct (loop fuel ev (S made) (r + 1) (b * 2)) as [[later res]|] eqn:Hlater;
        [|discriminate].
      intros [= <- <-]. apply IH in Hlater. destruct Hlater as [Hlog Hres].
      split.
      * cbn. rewrite Hreply. cbn [logged_for app]. f_equal. exact Hlog.
      * intros Htrue. destruct (Hres Htrue) as (earlier & -> & Hinfo).
        eexists (_ :: _ :: _ :: earlier). split; [reflexivity|].
        exact Hinfo.
Qed.

(** A first reply that is neither 202 nor 429 nor 500 ends the run. *)
Lemma post_loop_rejected fuel ev r b s text :
  r <= max_retries ->
  server 0%nat = Response s text ->
  s <> 202 -> s <> 429 -> s <> 500 ->
  loop (S fuel) ev 0%nat r b
  = Some ([Post ev;
           Log ERROR ("Unexpected status code: " +:+ Py.str_int s +:+ " - " +:+ text)],
          false).
Proof.
  intros Hr Hreply H1 H2 H3.
  rewrite post_loop_step by assumption.
  rewrite Hreply, attempt_other by assumption. reflexivity.
Qed.

End Loop.

Lemma post_event_returns max_retries initial_backoff server ev :
  exists trace result,
    post_event_with max_retries initial_backoff server ev = Some (trace, result).
Proof. apply post_loop_returns. lia. Qed.

(** *** Classification of a status *)

(** The classification by ranges, at the status [s]: accepted exactly
    for 2xx, retryable exactly for 429 and 5xx, rejected otherwise. *)
Definition classified_by_range (s : Z) : Prop :=
  forall ev text r b,
    let o := outcome (snd (attempt ev (Response s text) r b)) in
    (o = accepted <-> 200 <= s <= 299) /\
    (o = retryable <-> s = 429 \/ 500 <= s <= 599) /\
    (o = rejected <-> ~ 200 <= s <= 299 /\ ~ (s = 429 \/ 500 <= s <= 599)).

(** C1, as stated, fails: a 200 is not accepted and a 503 is not
    retried; both are rejected. *)
Lemma status_200_and_503_are_rejected :
  ~ classified_by_range 200 /\ ~ classified_by_range 503.
Proof.
  split; intros H; specialize (H sample "" 0 100); cbn in H.
  - destruct H as [[_ H] _]. discriminate H. lia.
  - destruct H as [_ [[_ H] _]]. discriminate H. lia.
Qed.

(** C1, amended.  A status is accepted exactly when it is 202, retried
    exactly when it is 429 or 500, and rejected in every other case,
    2xx other than 202 and 5xx other than 500 included.  An accepted
    attempt logs the success and returns [True]; a retried one sleeps
    [backoff] and goes round the loop with [retries + 1] and twice the
    backoff; a rejected one logs the status and the response text and
    returns [False] without a sleep. *)
Theorem attempt_classification (s : Z) (ev : Event) (text : string) (r b : Z) :
  let a := attempt ev (Response s text) r b in
  (outcome (snd a) = accepted <-> s = 202) /\
  (outcome (snd a) = retryable <-> s = 429 \/ s = 500) /\
  (outcome (snd a) = rejected <-> s <> 202 /\ s <> 429 /\ s <> 500) /\
  a = match outcome (snd a) with
      | accepted =>
          ([Post ev; Log INFO ("Event ingested successfully: " +:+ event_id ev)],
           Return true)
      | retryable =>
          ([Post ev; Sleep b], Continue (r + 1) (b * 2))
      | rejected =>
          ([Post ev;
            Log ERROR ("Unexpected status code: " +:+ Py.str_int s +:+ " - " +:+ text)],
           Return false)
      end.
Proof.
  destruct (status_cases s) as [-> | [Hs | (H1 & H2 & H3)]]; cbv zeta.
  - rewrite attempt_202. cbn [snd outcome].
    repeat split; (reflexivity || discriminate || lia).
  - rewrite attempt_429_500 by assumption. cbn [snd outcome].
    repeat split; (reflexivity || discriminate || lia || auto).
  - rewrite attempt_other by assumption. cbn [snd outcome].
    repeat split; (reflexivity || discriminate || lia || auto).
Qed.

(** *** Log lines *)

(** Exactly one log line, and the identifier of the event in it. *)
Definition one_line_with_identifier (ev : Event) (trace : list Effect) : Prop :=
  exists level msg,
    log_lines trace = [Log level msg] /\ Py.contains (event_id ev) msg = true.

(** C3, as stated, fails on both terminal failures: a run that uses up
    its retries on 500 logs nothing, and the line of a rejected status
    does not carry the identifier. *)
Lemma terminal_failures_without_identifier :
  (exists trace,
      post_event (always 500 "Internal Server Error") sample = Some (trace, false)
      /\ log_lines trace = []
      /\ ~ one_line_with_identifier sample trace)
  /\
  (exists trace,
      post_event (always 400 "Bad Request") sample = Some (trace, false)
      /\ log_lines trace = [Log ERROR "Unexpected status code: 400 - Bad Request"]
      /\ ~ one_line_with_identifier sample trace).
Proof.
  split; eexists; (split; [reflexivity|]); (split; [reflexivity|]).
  - intros (level & msg & H & _). discriminate H.
  - intros (level & msg & H & Hid). injection H as <- <-. discriminate Hid.
Qed.

(** C3, amended.  [post_event] returns, and its log lines are those of
    its requests, in order: the success line with the identifier for a
    202, one error line with the status and the response text for a
    rejected status, one error line with the exception for a request
    that raised, nothing for a 429 or a 500.  Hence a run that returns
    [True] ends with its only INFO line, which holds the identifier; a
    run that uses up its retries on 429 and 500 logs nothing; a run
    whose first status is rejected logs one line, with the status and
    the text. *)
Theorem post_event_log_lines (max_retries initial_backoff : Z)
        (server : nat -> Reply) (ev : Event) :
  exists trace result,
    post_event_with max_retries initial_backoff server ev = Some (trace, result)
    /\ log_lines trace
       = flat_map (fun k => logged_for ev (server k))
                  (seq 0 (List.length (requests trace)))
    /\ (result = true ->
        exists earlier,
          trace = earlier
                  ++ [Log INFO ("Event ingested successfully: " +:+ event_id ev)]
          /\ filter is_info earlier = [])
    /\ Py.contains (event_id ev)
                   ("Event ingested successfully: " +:+ event_id ev) = true
    /\ (0 <= max_retries ->
        (forall k, (k <= Z.to_nat max_retries)%nat ->
                   exists s text, server k = Response s text /\ (s = 429 \/ s = 500)) ->
        result = false /\ log_lines trace = [])
    /\ (0 <= max_retries ->
        forall s text,
          server 0%nat = Response s text -> s <> 202 -> s <> 429 -> s <> 500 ->
          result = false
          /\ log_lines trace
             = [Log ERROR ("Unexpected status code: " +:+ Py.str_int s
                           +:+ " - " +:+ text)]).
Proof.
  destruct (post_event_returns max_retries initial_backoff server ev)
    as (trace & result & Hrun).
  exists trace, result. split; [exact Hrun|].
  destruct (post_loop_lines _ _ _ _ _ _ _ _ _ Hrun) as [Hlines Htrue].
  split; [exact Hlines|]. split; [exact Htrue|].
  split; [apply contains_append|]. split.
  - intros Hmax Hall.
    destruct (post_loop_all_retried max_retries server (S (Z.to_nat max_retries))
                ev 0%nat 0 initial_backoff) as (t & Ht & _ & Hlog).
    + lia.
    + intros k Hk. cbn [Nat.add].
      destruct (Hall k) as (s & text & -> & Hs); [lia|].
      cbn [retried]. destruct Hs as [-> | ->]; reflexivity.
    + unfold post_event_with in Hrun. rewrite Ht in Hrun. injection Hrun as <- <-.
      split; [reflexivity|]. apply Hlog. intros k Hk. cbn [Nat.add].
      destruct (Hall k) as (s & text & -> & _); [lia|]. eauto.
  - intros Hmax s text Hreply H1 H2 H3.
    unfold post_event_with in Hrun.
    rewrite (post_loop_rejected max_retries server _ ev 0 initial_backoff s text)
      in Hrun by assumption.
    injection Hrun as <- <-. split; reflexivity.
Qed.

Lemma post_event_log_lines_witness :
  (exists trace,
      post_event_with 1 100 (always 500 "") sample = Some (trace, false)
      /\ log_lines trace = [])
  /\
  (exists trace,
      post_event_with 1 100 (always 404 "Not Found") sample = Some (trace, false)
      /\ log_lines trace = [Log ERROR "Unexpected status code: 404 - Not Found"]).
Proof.
  split.
  - destruct (post_event_log_lines 1 100 (always 500 "") sample)
      as (trace & result & Hrun & _ & _ & _ & Hexhausted & _).
    destruct Hexhausted as [-> Hlog].
    + lia.
    + intros k _. exists 500, "". split; [reflexivity | right; reflexivity].
    + exists trace. split; assumption.
  - destruct (post_event_log_lines 1 100 (always 404 "Not Found") sample)
      as (trace & result & Hrun & _ & _ & _ & _ & Hrejected).
    destruct (Hrejected ltac:(lia) 404 "Not Found" eq_refl
                ltac:(discriminate) ltac:(discriminate) ltac:(discriminate))
      as [-> Hlog].
    exists trace. split; assumption.
Defined.

(** *** Retries and backoff *)

(** A reply whose status the specification calls retryable: 429 or any
    5xx. *)
Definition retryable_by_range (reply : Reply) : Prop :=
  exists s text, reply = Response s text /\ (s = 429 \/ 500 <= s <= 599).

(** On replies that are all retryable by range, the call makes
    [MAX_RETRIES + 1] requests and returns [False]. *)
Definition exhausts_when_retryable_by_range (server : nat -> Reply) (ev : Event) : Prop :=
  (forall k, retryable_by_range (server k)) ->
  exists trace,
    post_event server ev = Some (trace, false)
    /\ Z.of_nat (List.length (requests trace)) = MAX_RETRIES + 1.

(** C5, as stated, fails: a 503 is a retryable outcome by range, and on
    a server that always replies 503 the call makes one request, logs the
    status, does not sleep and returns [False] at once. *)
Lemma a_503_is_not_retried :
  (forall k, retryable_by_range (always 503 "Service Unavailable" k))
  /\ post_event (always 503 "Service Unavailable") sample
     = Some ([Post sample;
              Log ERROR "Unexpected status code: 503 - Service Unavailable"], false)
  /\ ~ exhausts_when_retryable_by_range (always 503 "Service Unavailable") sample.
Proof.
  assert (Hall : forall k, retryable_by_range (always 503 "Service Unavailable" k)).
  { intros k. exists 503, "Service Unavailable". split; [reflexivity | right; lia]. }
  split; [exact Hall|]. split; [reflexivity|].
  intros H. destruct (H Hall) as (trace & Hrun & Hcount).
  injection Hrun as <-. discriminate Hcount.
Qed.

(** C5, amended.  When every request of a call gets a reply that the
    loop goes round on (429, 500, or an exception; a 5xx other than 500 is
    not one of them), [post_event] makes exactly [max_retries + 1]
    requests and returns [False].  Without its log lines the trace is:
    request, sleep [initial_backoff * 2^0], request, sleep
    [initial_backoff * 2^1], ..., so the sleep before the re-attempt
    number [k] lasts [initial_backoff * 2^(k-1)].  With the constants of
    the script that is two requests, the second one 100 ms after the
    first. *)
Theorem post_event_exhausts_retries (max_retries initial_backoff : Z)
        (server : nat -> Reply) (ev : Event) :
  0 <= max_retries ->
  (forall k, (k <= Z.to_nat max_retries)%nat -> retried (server k) = true) ->
  exists trace,
    post_event_with max_retries initial_backoff server ev = Some (trace, false)
    /\ Z.of_nat (List.length (requests trace)) = max_retries + 1
    /\ timing trace
       = flat_map (fun k => [Post ev; Sleep (initial_backoff * 2 ^ Z.of_nat k)])
                  (seq 0 (S (Z.to_nat max_retries)))
    /\ (forall k, 1 <= k <= max_retries ->
          nth_error (timing trace) (Z.to_nat (2 * k - 1))
            = Some (Sleep (initial_backoff * 2 ^ (k - 1)))
          /\ nth_error (timing trace) (Z.to_nat (2 * k)) = Some (Post ev))
    /\ (MAX_RETRIES = 1 /\ INITIAL_BACKOFF = 100).
Proof.
  intros Hmax Hall.
  destruct (post_loop_all_retried max_retries server (S (Z.to_nat max_retries))
              ev 0%nat 0 initial_backoff) as (trace & Hrun & Htiming & _).
  { lia. }
  { intros k Hk. apply Hall. lia. }
  exists trace. split; [exact Hrun|].
  split; [|split; [exact Htiming|split]].
  - rewrite <- requests_timing, Htiming, backoff_schedule_requests. lia.
  - intros k Hk. rewrite Htiming.
    destruct (backoff_schedule_nth ev initial_backoff (S (Z.to_nat max_retries))
                (Z.to_nat (k - 1)) ltac:(lia)) as [_ Hsleep].
    destruct (backoff_schedule_nth ev initial_backoff (S (Z.to_nat max_retries))
                (Z.to_nat k) ltac:(lia)) as [Hpost _].
    replace (Z.to_nat (2 * k - 1)) with (2 * Z.to_nat (k - 1) + 1)%nat by lia.
    replace (Z.to_nat (2 * k)) with (2 * Z.to_nat k)%nat by lia.
    rewrite Hsleep, Hpost. rewrite Z2Nat.id by lia. split; reflexivity.
  - split; reflexivity.
Qed.

Lemma post_event_exhausts_retries_witness :
  exists trace,
    post_event (always 500 "Internal Server Error") sample = Some (trace, false)
    /\ Z.of_nat (List.length (requests trace)) = 2
    /\ timing trace = [Post sample; Sleep 100; Post sample; Sleep 200].
Proof.
  destruct (post_event_exhausts_retries MAX_RETRIES INITIAL_BACKOFF
              (always 500 "Internal Server Error") sample)
    as (trace & Hrun & Hcount & Htiming & _).
  - unfold MAX_RETRIES. lia.
  - intros k _. reflexivity.
  - exists trace. split; [exact Hrun|]. split; [exact Hcount|]. exact Htiming.
Defined.

(** C6.  With a budget of zero retries or more, a first reply whose
    status is neither 202 nor 429 nor 500 (a 400, say) ends the call:
    one request, one error line, no sleep, [False]. *)
Theorem post_event_rejected_at_once (max_retries initial_backoff : Z)
        (server : nat -> Reply) (ev : Event) (s : Z) (text : string) :
  0 <= max_retries ->
  server 0%nat = Response s text ->
  s <> 202 -> s <> 429 -> s <> 500 ->
  exists trace,
    post_event_with max_retries initial_backoff server ev = Some (trace, false)
    /\ trace = [Post ev;
                Log ERROR ("Unexpected status code: " +:+ Py.str_int s +:+ " - " +:+ text)]
    /\ requests trace = [Post ev]
    /\ sleeps trace = [].
Proof.
  intros Hmax Hreply H1 H2 H3. eexists. split.
  - apply (post_loop_rejected max_retries server _ ev 0 initial_backoff s text);
      assumption.
  - repeat split.
Qed.

Lemma post_event_rejected_at_once_witness :
  exists trace,
    post_event_with 5 100 (always 400 "Bad Request") sample = Some (trace, false)
    /\ trace = [Post sample; Log ERROR "Unexpected status code: 400 - Bad Request"]
    /\ requests trace = [Post sample]
    /\ sleeps trace = [].
Proof.
  apply (post_event_rejected_at_once 5 100 (always 400 "Bad Request") sample
           400 "Bad Request");
    [lia | reflexivity | discriminate | discriminate | discriminate].
Defined.

End PosterFacts.

(* ================================================================= *)
(** ** The batch scheduler *)

Module SchedulerFacts.
Import Ingest.

(** *** Ranges *)

Lemma range_up_stop fuel i stop step :
  stop <= i -> Py.range_up fuel i stop step = [].
Proof.
  intros H. destruct fuel; cbn [Py.range_up]; [reflexivity|].
  destruct (Z.ltb_spec i stop); [lia | reflexivity].
Qed.

Lemma range_up_go fuel i stop step :
  i < stop ->
  Py.range_up (S fuel) i stop step = i :: Py.range_up fuel (i + step) stop step.
Proof.
  intros H. cbn [Py.range_up].
  destruct (Z.ltb_spec i stop); [reflexivity | lia].
Qed.

(** [range(a, b)] is [a, a + 1, ..., b - 1]. *)
Lemma range_up_1 (n : nat) (a : Z) :
  Py.range_up n a (a + Z.of_nat n) 1 = map (fun k => a + Z.of_nat k) (seq 0 n).
Proof.
  revert a. induction n as [|n IH]; intros a; [reflexivity|].
  rewrite range_up_go by lia.
  replace (a + Z.of_nat (S n)) with (a + 1 + Z.of_nat n) by lia.
  rewrite IH. cbn [seq map]. rewrite <- seq_shift, map_map.
  f_equal; [f_equal; lia|]. apply map_ext. intros k. lia.
Qed.

Lemma range_eq (a b : Z) :
  a <= b ->
  Py.range a b = map (fun k => a + Z.of_nat k) (seq 0 (Z.to_nat (b - a))).
Proof.
  intros H. unfold Py.range. rewrite <- range_up_1. f_equal. lia.
Qed.

Lemma range_length (a b : Z) : a <= b -> Py.len (Py.range a b) = b - a.
Proof.
  intros H. unfold Py.len. rewrite range_eq by assumption.
  rewrite length_map, length_seq. lia.
Qed.

Lemma map_seq_from {A} (f : nat -> A) (a n : nat) :
  map f (seq a n) = map (fun k => f (a + k)%nat) (seq 0 n).
Proof.
  revert a. induction n as [|n IH]; intros a; [reflexivity|].
  cbn [seq map]. rewrite Nat.add_0_r. f_equal.
  rewrite IH, <- seq_shift, map_map. apply map_ext. intros k. f_equal. lia.
Qed.

Lemma range_app (a b c : Z) :
  a <= b <= c -> Py.range a b ++ Py.range b c = Py.range a c.
Proof.
  intros H. rewrite !range_eq by lia.
  replace (Z.to_nat (c - a)) with (Z.to_nat (b - a) + Z.to_nat (c - b))%nat by lia.
  rewrite seq_app, map_app. f_equal.
  rewrite (map_seq_from _ (0 + _)). apply map_ext. intros k. lia.
Qed.

(** *** The program of the scheduler *)

Section Batches.
Variable uuid4 : Z -> string.
Variables N B : Z.
Hypothesis B_positive : 0 < B.

(** The event of index [j] in this run. *)
Definition event (j : Z) : Event := SynthesizerFacts.event_of (uuid4 j) j.

(** The indices of the batch that starts at [i]. *)
Definition indices (i : Z) : list Z := Py.range i (Z.min (i + B) N).

Lemma comprehension_events (l : list Z) :
  Py.comprehension (fun j => generate_event (uuid4 j) j) l = Some (map event l).
Proof.
  induction l as [|j l IH]; [reflexivity|].
  cbn [Py.comprehension map].
  now rewrite SynthesizerFacts.generate_event_eq, IH.
Qed.

Lemma make_batch_eq (i : Z) :
  make_batch uuid4 N B i = Some (map event (indices i)).
Proof. apply comprehension_events. Qed.

Lemma for_batches_eq (starts : list Z) :
  for_batches uuid4 N B starts
  = Some (flat_map (fun i => [Submit (map event (indices i)); Pace 1000]) starts).
Proof.
  induction starts as [|i starts IH]; [reflexivity|].
  cbn [for_batches flat_map app]. now rewrite make_batch_eq, IH.
Qed.

(** The values of [i] in [for i in range(0, N, B)]. *)
Definition starts : list Z := Py.range_up (Z.to_nat N) 0 N B.

Definition body : list Action :=
  flat_map (fun i => [Submit (map event (indices i)); Pace 1000]) starts.

(** The scheduler runs to its end: no built-in raises. *)
Lemma seed_events_eq :
  seed_events_clickhouse_with uuid4 N B
  = Some (Info "Starting event ingestion..." :: body
          ++ [Shutdown; Info "Event ingestion completed"]).
Proof.
  unfold seed_events_clickhouse_with, Py.range3.
  destruct (Z.eqb_spec B 0); [lia|].
  destruct (Z.ltb_spec 0 B); [|lia].
  rewrite Z.sub_0_r. fold starts. now rewrite for_batches_eq.
Qed.

Lemma dispatched_app (p q : list Action) :
  dispatched (p ++ q) = dispatched p ++ dispatched q.
Proof.
  induction p as [|a p IH]; [reflexivity|].
  destruct a; cbn [app dispatched]; rewrite IH; reflexivity.
Qed.

Lemma dispatched_program :
  dispatched (Info "Starting event ingestion..." :: body
              ++ [Shutdown; Info "Event ingestion completed"])
  = map (fun i => map event (indices i)) starts.
Proof.
  cbn [dispatched]. rewrite dispatched_app. cbn [dispatched].
  rewrite app_nil_r. unfold body.
  induction starts as [|i l IH]; [reflexivity|].
  cbn [flat_map app dispatched map]. now rewrite IH.
Qed.

(** The fuel of [range3] is enough: the loop stops on [i >= stop],
    after [ceil((stop - i) / step)] values. *)
Lemma range_up_eq (fuel : nat) (i : Z) :
  N - i <= Z.of_nat fuel ->
  Py.range_up fuel i N B
  = map (fun k => i + Z.of_nat k * B) (seq 0 (Z.to_nat ((N - i + B - 1) / B))).
Proof.
  revert i. induction fuel as [|fuel IH]; intros i Hfuel.
  - rewrite range_up_stop by lia.
    assert ((N - i + B - 1) / B < 1) by (apply Z.div_lt_upper_bound; lia).
    replace (Z.to_nat ((N - i + B - 1) / B)) with 0%nat by lia. reflexivity.
  - destruct (Z.lt_ge_cases i N) as [Hlt | Hge].
    + rewrite range_up_go by assumption. rewrite IH by lia.
      replace (N - i + B - 1) with ((N - (i + B) + B - 1) + 1 * B) by lia.
      rewrite Z.div_add by lia.
      assert (0 <= (N - (i + B) + B - 1) / B) by (apply Z.div_pos; lia).
      replace (Z.to_nat ((N - (i + B) + B - 1) / B + 1))
        with (S (Z.to_nat ((N - (i + B) + B - 1) / B))) by lia.
      cbn [seq map]. rewrite <- seq_shift, map_map.
      f_equal; [lia|]. apply map_ext. intros k. lia.
    + rewrite range_up_stop by lia.
      assert ((N - i + B - 1) / B < 1) by (apply Z.div_lt_upper_bound; lia).
      replace (Z.to_nat ((N - i + B - 1) / B)) with 0%nat by lia. reflexivity.
Qed.

Lemma starts_eq :
  starts = map (fun k => Z.of_nat k * B) (seq 0 (Z.to_nat ((N + B - 1) / B))).
Proof.
  unfold starts. rewrite range_up_eq by lia.
  rewrite Z.sub_0_r. apply map_ext. intros k. lia.
Qed.

(** The batches, one after the other, are the indices from [i] on. *)
Lemma concat_indices (fuel : nat) (i : Z) :
  i <= N -> N - i <= Z.of_nat fuel ->
  List.concat (map indices (Py.range_up fuel i N B)) = Py.range i N.
Proof.
  revert i. induction fuel as [|fuel IH]; intros i Hi Hfuel.
  - replace i with N by lia. cbn [Py.range_up map List.concat].
    unfold Py.range. now rewrite range_up_stop by lia.
  - destruct (Z.lt_ge_cases i N) as [Hlt | Hge].
    + rewrite range_up_go by assumption. cbn [map List.concat]. unfold indices at 1.
      destruct (Z.le_gt_cases (i + B) N) as [Hfull | Hlast].
      * rewrite Z.min_l by assumption. rewrite IH by lia.
        apply range_app. lia.
      * rewrite Z.min_r by lia. rewrite range_up_stop by lia.
        apply app_nil_r.
    + replace i with N by lia. rewrite range_up_stop by lia.
      unfold Py.range. rewrite range_up_stop by lia. reflexivity.
Qed.

(** The number of batches is the ceiling of [N / B]. *)
Lemma ceiling :
  0 < N ->
  let n := (N + B - 1) / B in
  0 < n /\ B * (n - 1) < N <= B * n
  /\ N - B * (n - 1) = (if N mod B =? 0 then B else N mod B).
Proof.
  intros HN n.
  pose proof (Z.div_mod (N + B - 1) B ltac:(lia)) as Hdiv.
  pose proof (Z.mod_pos_bound (N + B - 1) B B_positive) as Hmod.
  fold n in Hdiv.
  assert (Hn : 0 < n) by (apply Z.div_str_pos; lia).
  split; [exact Hn|]. split; [lia|].
  pose proof (Z.div_mod N B ltac:(lia)) as HdivN.
  pose proof (Z.mod_pos_bound N B B_positive) as HmodN.
  destruct (Z.eqb_spec (N mod B) 0) as [Hzero | Hnonzero].
  - assert (n = N / B) by nia. nia.
  - assert (n = N / B + 1) by nia. nia.
Qed.

Lemma indices_length (k : Z) :
  0 <= k -> k * B < N ->
  Py.len (indices (k * B))
  = (if k + 1 <? (N + B - 1) / B then B else N - k * B)
  /\ Py.len (indices (k * B)) <= B.
Proof.
  intros Hk HkN. unfold indices.
  rewrite range_length by lia.
  pose proof (ceiling ltac:(nia)) as (Hn & Hceil & _). cbv zeta in Hceil.
  destruct (Z.ltb_spec (k + 1) ((N + B - 1) / B)) as [Hfull | Hlast].
  - assert (k * B + B <= N) by nia. lia.
  - assert (N <= k * B + B) by nia. lia.
Qed.

End Batches.

(** A sample source of identifiers. *)
Definition numbered : Z -> string := fun j => "uuid-" +:+ Py.str_int j.

Example five_events_in_batches_of_two :
  option_map (fun program => map (@List.length Event) (dispatched program))
             (seed_events_clickhouse_with numbered 5 2)
  = Some [2; 2; 1]%nat.
Proof. reflexivity. Qed.

(** C4.  For positive [N] and [B] the scheduler runs to its end and
    hands [ceil(N / B)] batches to the pool (the number [n] with
    [B * (n - 1) < N <= B * n]).  One after the other the batches are
    the events of the indices [0, 1, ..., N - 1]; the batch number [k]
    (from zero) is the events of [range(k * B, min(k * B + B, N))]; every
    batch but the last has [B] events, the last one has
    [N - B * (n - 1)], which is [N mod B] when [B] does not divide [N]
    and [B] when it does; no batch has more than [B] events and the
    sizes add up to [N]. *)
Theorem scheduler_batches (uuid4 : Z -> string) (N B : Z) :
  0 < N -> 0 < B ->
  exists program,
    seed_events_clickhouse_with uuid4 N B = Some program /\
    let batches := dispatched program in
    let n := (N + B - 1) / B in
    Py.len batches = n
    /\ B * (n - 1) < N <= B * n
    /\ Py.comprehension (fun j => generate_event (uuid4 j) j) (Py.range 0 N)
       = Some (List.concat batches)
    /\ (forall k batch,
          nth_error batches k = Some batch ->
          make_batch uuid4 N B (Z.of_nat k * B) = Some batch
          /\ Py.len batch = (if Z.of_nat k + 1 <? n then B else N - B * (n - 1))
          /\ Py.len batch <= B)
    /\ Z.of_nat (list_sum (map (@List.length Event) batches)) = N
    /\ N - B * (n - 1) = (if N mod B =? 0 then B else N mod B).
Proof.
  intros HN HB.
  eexists. split; [apply seed_events_eq; assumption|].
  rewrite dispatched_program. cbv zeta.
  destruct (ceiling N B HB HN) as (Hn & Hceil & Hlast). cbv zeta in Hceil, Hlast.
  assert (Hconcat : List.concat (map (fun i => map (event uuid4) (indices N B i))
                                     (starts N B))
                    = map (event uuid4) (Py.range 0 N)).
  { rewrite <- (concat_indices N B HB (Z.to_nat N) 0) by lia.
    rewrite concat_map, map_map. reflexivity. }
  split; [|split; [exact Hceil|split; [|split; [|split; [|exact Hlast]]]]].
  - unfold Py.len. rewrite length_map, starts_eq, length_map, length_seq by assumption.
    lia.
  - rewrite comprehension_events. f_equal. symmetry. exact Hconcat.
  - intros k batch Hk.
    rewrite starts_eq, map_map, nth_error_map, nth_error_seq in Hk by assumption.
    destruct (Nat.ltb_spec k (Z.to_nat ((N + B - 1) / B))) as [Hlt | Hge];
      [|discriminate].
    cbn [option_map Nat.add] in Hk. injection Hk as <-.
    split; [apply make_batch_eq|].
    destruct (indices_length N B HB (Z.of_nat k)) as [Hlen Hle]; [lia | nia |].
    unfold Py.len in *. rewrite length_map. split; [|exact Hle].
    rewrite Hlen.
    destruct (Z.ltb_spec (Z.of_nat k + 1) ((N + B - 1) / B)); [reflexivity|].
    assert (Z.of_nat k = (N + B - 1) / B - 1) by lia. nia.
  - rewrite <- length_concat, Hconcat, length_map.
    pose proof (range_length 0 N ltac:(lia)) as Hlen. unfold Py.len in Hlen. lia.
Qed.

Lemma scheduler_batches_witness :
  exists program,
    seed_events_clickhouse_with numbered 300 150 = Some program
    /\ Py.len (dispatched program) = (300 + 150 - 1) / 150
    /\ Z.of_nat (list_sum (map (@List.length Event) (dispatched program))) = 300.
Proof.
  destruct (scheduler_batches numbered 300 150) as (program & Hrun & H);
    [lia | lia |].
  cbv zeta in H. destruct H as (Hlen & _ & _ & _ & Hsum & _).
  exists program. split; [exact Hrun|]. split; [exact Hlen | exact Hsum].
Defined.

(** *** The scheduler and the pool *)

Lemma run_app s labels s' labels' s'' :
  run s labels s' -> run s' labels' s'' -> run s (labels ++ labels') s''.
Proof.
  induction 1 as [s | s l s1 ls s2 Hstep Hrun IH]; intros Hnext; [exact Hnext|].
  cbn [app]. eapply run_cons; [exact Hstep | apply IH, Hnext].
Qed.

(** The scheduler can hand every batch to the pool, and sleep after
    each, while nothing settles. *)
Lemma run_batches (batches : list (list Event)) (q : list Event) (rest : list Action) :
  run {| unsettled := q;
         todo := flat_map (fun batch => [Submit batch; Pace 1000]) batches ++ rest |}
      (flat_map (fun batch => [Scheduler (Submit batch); Scheduler (Pace 1000)]) batches)
      {| unsettled := q ++ List.concat batches; todo := rest |}.
Proof.
  revert q. induction batches as [|batch batches IH]; intros q.
  - cbn. rewrite app_nil_r. apply run_nil.
  - cbn [flat_map List.concat app].
    eapply run_cons; [apply step_submit|].
    eapply run_cons; [apply step_pace|].
    rewrite app_assoc. apply IH.
Qed.

(** What is left to do still holds the shutdown, with no submission
    after it. *)
Fixpoint shutdown_ahead (actions : list Action) : bool :=
  match actions with
  | [] => false
  | Shutdown :: rest => forallb (fun a => negb (is_submit a)) rest
  | _ :: rest => shutdown_ahead rest
  end.

(** Either the shutdown is still ahead, or nothing is unsettled and
    nothing will be submitted any more. *)
Definition joined (s : Pool) : Prop :=
  shutdown_ahead (todo s) = true
  \/ (unsettled s = [] /\ forallb (fun a => negb (is_submit a)) (todo s) = true).

Lemma step_joined s l s' : step s l s' -> joined s -> joined s'.
Proof.
  unfold joined.
  intros Hstep; destruct Hstep; cbn [todo unsettled shutdown_ahead forallb is_submit negb andb];
    intros [H | [Hq H]]; auto; try discriminate.
  - destruct q1; discriminate.
Qed.

Lemma run_joined s labels s' : run s labels s' -> joined s -> joined s'.
Proof.
  induction 1 as [s | s l s1 ls s2 Hstep Hrun IH]; [auto|].
  intros H. apply IH. eapply step_joined; eassumption.
Qed.

Lemma shutdown_ahead_batches (batches : list (list Event)) (after : list Action) :
  forallb (fun a => negb (is_submit a)) after = true ->
  shutdown_ahead (flat_map (fun batch => [Submit batch; Pace 1000]) batches
                  ++ Shutdown :: after) = true.
Proof.
  intros H. induction batches as [|batch batches IH]; [exact H | exact IH].
Qed.

Lemma body_batches uuid4 N B :
  body uuid4 N B
  = flat_map (fun batch => [Submit batch; Pace 1000])
             (map (fun i => map (event uuid4) (indices N B i)) (starts N B)).
Proof.
  unfold body. induction (starts N B) as [|i l IH]; [reflexivity|].
  cbn [flat_map map app]. now rewrite IH.
Qed.

(** After every batch the scheduler waits until the batch has settled,
    and only then sleeps: it takes a [Pace] step only when nothing is
    unsettled. *)
Definition settles_before_pacing (program : list Action) : Prop :=
  forall labels s ms s',
    run (start program) labels s ->
    step s (Scheduler (Pace ms)) s' ->
    unsettled s = [].

(** C2, as stated, fails: with two batches of one event, the scheduler
    sleeps after the first batch, submits the second and sleeps again
    while no submission has settled. *)
Lemma batches_are_not_awaited :
  exists program,
    seed_events_clickhouse_with numbered 2 1 = Some program
    /\ ~ settles_before_pacing program
    /\ run (start program)
           [Scheduler (Info "Starting event ingestion...");
            Scheduler (Submit [event numbered 0]); Scheduler (Pace 1000);
            Scheduler (Submit [event numbered 1]); Scheduler (Pace 1000)]
           {| unsettled := [event numbered 0; event numbered 1];
              todo := [Shutdown; Info "Event ingestion completed"] |}.
Proof.
  eexists. split; [reflexivity|]. split.
  - intros H.
    specialize (H [Scheduler (Info "Starting event ingestion...");
                   Scheduler (Submit [event numbered 0])]
                  {| unsettled := [event numbered 0];
                     todo := [Pace 1000; Submit [event numbered 1]; Pace 1000;
                              Shutdown; Info "Event ingestion completed"] |}
                  1000
                  {| unsettled := [event numbered 0];
                     todo := [Submit [event numbered 1]; Pace 1000;
                              Shutdown; Info "Event ingestion completed"] |}).
    discriminate H.
    + eapply run_cons; [apply step_info|].
      eapply run_cons; [apply (step_submit _ [])|]. apply run_nil.
    + apply step_pace.
  - eapply run_cons; [apply step_info|].
    eapply run_cons; [apply (step_submit _ [])|].
    eapply run_cons; [apply step_pace|].
    eapply run_cons; [apply (step_submit _ [_])|].
    eapply run_cons; [apply step_pace|]. apply run_nil.
Qed.

(** C2, amended.  For a positive batch size the scheduler runs to its
    end; its program is: the start line, then for every batch a
    submission and a sleep of one second, then one shutdown of the pool
    and the end line.  A submission and a sleep are steps that the
    scheduler can take whatever is unsettled, and there is a run in
    which it has handed every batch to the pool while nothing has
    settled.  The shutdown is the only step that waits: the scheduler
    takes it only when nothing is unsettled, so that a run that reaches
    the end of the program has settled every submission. *)
Theorem scheduler_waits_at_shutdown_only (uuid4 : Z -> string) (N B : Z) :
  0 < B ->
  exists program,
    seed_events_clickhouse_with uuid4 N B = Some program
    /\ program
       = Info "Starting event ingestion..."
         :: flat_map (fun batch => [Submit batch; Pace 1000]) (dispatched program)
         ++ [Shutdown; Info "Event ingestion completed"]
    /\ (forall q batch rest,
          exists s', step {| unsettled := q; todo := Submit batch :: rest |}
                          (Scheduler (Submit batch)) s')
    /\ (forall q ms rest,
          exists s', step {| unsettled := q; todo := Pace ms :: rest |}
                          (Scheduler (Pace ms)) s')
    /\ (exists labels,
          run (start program) labels
              {| unsettled := List.concat (dispatched program);
                 todo := [Shutdown; Info "Event ingestion completed"] |})
    /\ (forall s s', step s (Scheduler Shutdown) s' -> unsettled s = [])
    /\ (forall labels s,
          run (start program) labels s -> todo s = [] -> unsettled s = []).
Proof.
  intros HB. eexists. split; [apply seed_events_eq; assumption|].
  rewrite dispatched_program, body_batches.
  set (batches := map (fun i => map (event uuid4) (indices N B i)) (starts N B)).
  split; [reflexivity|].
  split; [intros; eexists; apply step_submit|].
  split; [intros; eexists; apply step_pace|].
  split; [|split].
  - eexists. eapply run_cons; [apply step_info|].
    apply (run_batches batches []).
  - intros s s' Hstep. inversion Hstep. reflexivity.
  - intros labels s Hrun Hend.
    apply run_joined in Hrun.
    + destruct Hrun as [H | [H _]]; [|exact H].
      rewrite Hend in H. discriminate H.
    + left. cbn [start todo shutdown_ahead].
      apply shutdown_ahead_batches. reflexivity.
Qed.

Lemma scheduler_waits_at_shutdown_only_witness :
  exists program,
    seed_events_clickhouse_with numbered 300 150 = Some program
    /\ (forall labels s,
          run (start program) labels s -> todo s = [] -> unsettled s = []).
Proof.
  destruct (scheduler_waits_at_shutdown_only numbered 300 150)
    as (program & Hrun & _ & _ & _ & _ & _ & Hend); [lia|].
  exists program. split; [exact Hrun | exact Hend].
Defined.

End SchedulerFacts.

(* ================================================================= *)
(** ** The aggregate monitor *)

Module MonitorFacts.
Import Monitor.

(** The queries of a cycle, in the order of the script. *)
Definition query_order : list Query :=
  [storage_query; ingestion_lag_query; summarise_query; event_count_query;
   duration_query].

Lemma getitem_0 {A} (l : list A) : Py.getitem l 0 = hd_error l.
Proof.
  unfold Py.getitem, Py.len. destruct l as [|x l]; [reflexivity|].
  cbn [andb Z.leb Z.compare].
  destruct (Z.ltb_spec 0 (Z.of_nat (List.length (x :: l)))) as [_ | H];
    [reflexivity | cbn [List.length] in H; lia].
Qed.

Section Store.
Variable Value : Type.
Variable fmt_value : Value -> string.
Variable fmt_rows : list (list Value) -> string.

(** The line that the result of a query is logged with. *)
Definition result_line (q : Query) (rows : list (list Value)) : string :=
  match q with
  | storage_query =>
      "Storage Query Result: "
      +:+ match rows with (v :: _) :: _ => fmt_value v | _ => "" end
  | ingestion_lag_query => "Ingestion Lag Query Result: " +:+ fmt_rows rows
  | summarise_query => "Other Query Result: " +:+ fmt_rows rows
  | event_count_query => "Other Query Result: " +:+ fmt_rows rows
  | duration_query => "Duration Query Result: " +:+ fmt_rows rows
  end.

(** What a query that returns leaves in the trace of a cycle. *)
Definition answered (store : Query -> Reply Value) (q : Query) : list Effect :=
  match store q with
  | Result rows => [Exec q; Log INFO (result_line q rows)]
  | Raises _ => [Exec q]
  end.

(** The first cell of the storage result is there. *)
Definition has_first_cell (store : Query -> Reply Value) : Prop :=
  exists v row rows, store storage_query = Result ((v :: row) :: rows).

(** Every query of the cycle returns, and [result_rows[0][0]] is there. *)
Definition healthy (store : Query -> Reply Value) : Prop :=
  has_first_cell store /\ forall q, exists rows, store q = Result rows.

(** What the handler and the sleep add to the trace of the queries. *)
Definition ending (r : Raised + unit) : list Effect :=
  match r with
  | inl e => [Log ERROR ("Failed to execute queries: " +:+ str e);
              Sleep QUERY_INTERVAL]
  | inr _ => [Sleep QUERY_INTERVAL]
  end.

Ltac run_queries :=
  unfold Monitor.queries, Monitor.cycle, client_query, subscript, logger_info,
    logger_error, time_sleep, try_except, bind, emit, raise, ret, answered;
  rewrite ?getitem_0;
  repeat match goal with
         | H : ?st ?q = _ |- context [?st ?q] => rewrite H
         end;
  cbn.

(** A cycle in which every query returns. *)
Lemma queries_healthy store :
  healthy store ->
  queries fmt_value fmt_rows store
  = (flat_map (answered store) query_order, inr tt).
Proof.
  intros [(v & row & rows & H1) Hall].
  destruct (Hall ingestion_lag_query) as (r2 & H2).
  destruct (Hall summarise_query) as (r3 & H3).
  destruct (Hall event_count_query) as (r4 & H4).
  destruct (Hall duration_query) as (r5 & H5).
  cbn [query_order flat_map]. run_queries. reflexivity.
Qed.

(** Whatever the store answers, the exception that ends the queries
    of a cycle comes from the store or from a subscript. *)
Lemma queries_raise store trace e :
  queries fmt_value fmt_rows store = (trace, inl e) ->
  is_Exception e = true \/ exists q, store q = Raises e.
Proof.
  unfold Monitor.queries, client_query, subscript, logger_info, bind, emit, raise, ret.
  destruct (store storage_query) as [rows | e1] eqn:H1;
    [|intros [= _ <-]; right; eauto].
  rewrite getitem_0.
  destruct rows as [|[|v row] rows]; cbn [hd_error];
    [intros [= _ <-]; left; reflexivity | | ].
  { rewrite getitem_0. cbn. intros [= _ <-]. left; reflexivity. }
  rewrite getitem_0. cbn [hd_error].
  destruct (store ingestion_lag_query) as [r2 | e2] eqn:H2;
    [|intros [= _ <-]; right; eauto].
  destruct (store summarise_query) as [r3 | e3] eqn:H3;
    [|intros [= _ <-]; right; eauto].
  destruct (store event_count_query) as [r4 | e4] eqn:H4;
    [|intros [= _ <-]; right; eauto].
  destruct (store duration_query) as [r5 | e5] eqn:H5;
    [|intros [= _ <-]; right; eauto].
  discriminate.
Qed.

(** The handler catches an [Exception]; the cycle then sleeps and
    returns. *)
Lemma cycle_eq store :
  cycle fmt_value fmt_rows store
  = match queries fmt_value fmt_rows store with
    | (trace, inl e) =>
        if is_Exception e
        then (trace ++ ending (inl e), inr tt)
        else (trace, inl e)
    | (trace, inr _) => (trace ++ ending (inr tt), inr tt)
    end.
Proof.
  unfold Monitor.cycle.
  destruct (queries fmt_value fmt_rows store) as [trace [e | []]].
  - unfold try_except, logger_error, time_sleep, emit, bind.
    destruct (is_Exception e); cbn; [now rewrite <- app_assoc | reflexivity].
  - reflexivity.
Qed.

Lemma cycle_caught store :
  (forall q e, store q = Raises e -> is_Exception e = true) ->
  cycle fmt_value fmt_rows store
  = (fst (queries fmt_value fmt_rows store)
     ++ ending (snd (queries fmt_value fmt_rows store)), inr tt).
Proof.
  intros Hexc. rewrite cycle_eq.
  destruct (queries fmt_value fmt_rows store) as [trace [e | []]] eqn:Hq;
    [|reflexivity].
  assert (He : is_Exception e = true).
  { destruct (queries_raise _ _ _ Hq) as [H | [q H]]; [exact H | eauto]. }
  now rewrite He.
Qed.

(** The queries of a cycle up to the first one that raises. *)
Lemma queries_abort store earlier q later e :
  query_order = earlier ++ q :: later ->
  (forall q', In q' earlier -> exists rows, store q' = Result rows) ->
  (earlier <> [] -> has_first_cell store) ->
  store q = Raises e ->
  queries fmt_value fmt_rows store
  = (flat_map (answered store) earlier ++ [Exec q], inl e).
Proof.
  intros Horder Hall Hfirst Hq.
  destruct earlier as [|q1 [|q2 [|q3 [|q4 [|q5 rest]]]]];
    injection Horder as <-; intros;
    try (destruct rest; discriminate); subst;
    try (destruct Hfirst as (v & row & rows & H1); [discriminate|]);
    try (destruct (Hall ingestion_lag_query) as (r2 & H2); [cbn; tauto|]);
    try (destruct (Hall summarise_query) as (r3 & H3); [cbn; tauto|]);
    try (destruct (Hall event_count_query) as (r4 & H4); [cbn; tauto|]);
    cbn [flat_map app]; run_queries; reflexivity.
Qed.

Lemma executed_app (t1 t2 : list Effect) :
  executed (t1 ++ t2) = executed t1 ++ executed t2.
Proof.
  induction t1 as [|x t1 IH]; [reflexivity|].
  destruct x; cbn [app executed]; rewrite IH; reflexivity.
Qed.

Lemma logged_app (level : Level) (t1 t2 : list Effect) :
  logged level (t1 ++ t2) = logged level t1 ++ logged level t2.
Proof.
  induction t1 as [|x t1 IH]; [reflexivity|].
  destruct x as [| |[] msg|]; destruct level; cbn [app logged]; rewrite IH; reflexivity.
Qed.

Lemma executed_answered store (l : list Query) :
  executed (flat_map (answered store) l) = l.
Proof.
  induction l as [|q l IH]; [reflexivity|].
  cbn [flat_map]. rewrite executed_app, IH. unfold answered.
  destruct (store q); reflexivity.
Qed.

Lemma logged_answered store (l : list Query) :
  (forall q, In q l -> exists rows, store q = Result rows) ->
  logged INFO (flat_map (answered store) l)
  = map (fun q => match store q with
                  | Result rows => result_line q rows
                  | Raises _ => ""
                  end) l
  /\ logged ERROR (flat_map (answered store) l) = [].
Proof.
  induction l as [|q l IH]; intros Hall; [split; reflexivity|].
  cbn [flat_map map]. rewrite !logged_app.
  destruct IH as [-> ->]; [intros q' Hq'; apply Hall; now right|].
  unfold answered. destruct (Hall q) as [rows ->]; [now left|].
  split; reflexivity.
Qed.

(** Every cycle starts with the first query. *)
Lemma cycle_starts store :
  exists rest, fst (cycle fmt_value fmt_rows store) = Exec storage_query :: rest.
Proof.
  rewrite cycle_eq.
  assert (H : exists rest,
             fst (queries fmt_value fmt_rows store) = Exec storage_query :: rest).
  { unfold Monitor.queries, client_query. unfold bind at 1.
    destruct (store storage_query); [|eexists; reflexivity].
    match goal with |- context [let (_, _) := ?m in _] => destruct m end.
    eexists; reflexivity. }
  destruct (queries fmt_value fmt_rows store) as [trace [e | []]].
  - destruct H as [rest H]. cbn [fst] in H. subst trace.
    destruct (is_Exception e); eexists; reflexivity.
  - destruct H as [rest H]. cbn [fst] in H. subst trace. eexists; reflexivity.
Qed.

(** The loop goes through its cycles as long as each of them returns. *)
Lemma while_true_caught (store : nat -> Query -> Reply Value) (n k : nat) :
  (forall c q e, store c q = Raises e -> is_Exception e = true) ->
  while_true fmt_value fmt_rows store n k
  = (flat_map (fun c => fst (cycle fmt_value fmt_rows (store c))) (seq k n), inr tt).
Proof.
  intros Hexc. revert k. induction n as [|n IH]; intros k; [reflexivity|].
  cbn [Monitor.while_true seq flat_map]. rewrite IH.
  rewrite (cycle_caught (store k)) by (apply Hexc). reflexivity.
Qed.

(** C8.  When the failures of the store are exceptions of class
    [Exception] (query and connection failures are), then for every
    [n] the loop goes through [n] cycles and is still running: its
    trace is the traces of the cycles [k], [k + 1], ... one after the
    other.  A cycle whose queries raise [e] logs
    ["Failed to execute queries: e"], sleeps [QUERY_INTERVAL] and
    returns; a cycle whose queries all return executes the five of
    them, logs the five results and no error, and sleeps the same
    [QUERY_INTERVAL].  What a cycle does depends on what the store
    answers in this cycle only. *)
Theorem monitor_survives_failures (store : nat -> Query -> Reply Value)
        (n k : nat) :
  (forall c q e, store c q = Raises e -> is_Exception e = true) ->
  while_true fmt_value fmt_rows store n k
  = (flat_map (fun c => fst (cycle fmt_value fmt_rows (store c))) (seq k n), inr tt)
  /\ (forall c,
        cycle fmt_value fmt_rows (store c)
        = (fst (queries fmt_value fmt_rows (store c))
           ++ ending (snd (queries fmt_value fmt_rows (store c))), inr tt))
  /\ (forall c e,
        snd (queries fmt_value fmt_rows (store c)) = inl e ->
        fst (cycle fmt_value fmt_rows (store c))
        = fst (queries fmt_value fmt_rows (store c))
          ++ [Log ERROR ("Failed to execute queries: " +:+ str e);
              Sleep QUERY_INTERVAL])
  /\ (forall c,
        healthy (store c) ->
        let trace := fst (cycle fmt_value fmt_rows (store c)) in
        trace = flat_map (answered (store c)) query_order ++ [Sleep QUERY_INTERVAL]
        /\ executed trace = query_order
        /\ List.length (logged INFO trace) = 5%nat
        /\ logged ERROR trace = []).
Proof.
  intros Hexc.
  split; [apply while_true_caught, Hexc|].
  split; [intros c; apply cycle_caught, Hexc|].
  split.
  - intros c e He. rewrite cycle_caught by apply Hexc. cbn [fst].
    now rewrite He.
  - intros c Hhealthy. cbv zeta.
    rewrite cycle_caught by apply Hexc.
    rewrite (queries_healthy _ Hhealthy). cbn [fst snd ending].
    split; [reflexivity|].
    rewrite executed_app, !logged_app, executed_answered.
    destruct (logged_answered (store c) query_order) as [-> ->].
    { intros q _. apply Hhealthy. }
    repeat split.
Qed.

(** C9.  The queries of a cycle run in the order [query_order].  When
    the queries [earlier] return and the next one, [q], raises an
    exception [e] of class [Exception], the cycle is: the queries
    [earlier], each followed by the line of its result, then [q], the
    error line, the sleep.  The queries [later] are not executed and no
    result of [q] or of [later] is logged.  Whatever the store answers,
    a cycle starts with [storage_query], so the cycle after a failed
    one starts from the first query again; a cycle in which every
    query returns executes the five queries in the order
    [query_order]. *)
Theorem cycle_aborts_at_failure (store : Query -> Reply Value)
        (earlier later : list Query) (q : Query) (e : Raised) :
  query_order = earlier ++ q :: later ->
  (forall q', In q' earlier -> exists rows, store q' = Result rows) ->
  (earlier <> [] -> has_first_cell store) ->
  store q = Raises e ->
  is_Exception e = true ->
  let trace := fst (cycle fmt_value fmt_rows store) in
  cycle fmt_value fmt_rows store
  = (flat_map (answered store) earlier
     ++ [Exec q; Log ERROR ("Failed to execute queries: " +:+ str e);
         Sleep QUERY_INTERVAL],
     inr tt)
  /\ executed trace = earlier ++ [q]
  /\ List.length (logged INFO trace) = List.length earlier
  /\ (forall next : Query -> Reply Value,
        exists rest, fst (cycle fmt_value fmt_rows next) = Exec storage_query :: rest)
  /\ (forall other : Query -> Reply Value,
        healthy other ->
        executed (fst (cycle fmt_value fmt_rows other)) = query_order)
  /\ query_order
     = [storage_query; ingestion_lag_query; summarise_query; event_count_query;
        duration_query].
Proof.
  intros Horder Hall Hfirst Hq He. cbv zeta.
  assert (Hcycle : cycle fmt_value fmt_rows store
                   = (flat_map (answered store) earlier
                      ++ [Exec q; Log ERROR ("Failed to execute queries: " +:+ str e);
                          Sleep QUERY_INTERVAL], inr tt)).
  { rewrite cycle_eq, (queries_abort store earlier q later e) by assumption.
    rewrite He. cbn [ending]. now rewrite <- app_assoc. }
  rewrite Hcycle. cbn [fst].
  split; [reflexivity|].
  rewrite executed_app, logged_app, executed_answered.
  destruct (logged_answered store earlier Hall) as [-> _].
  split; [reflexivity|]. split.
  { cbn [logged app]. now rewrite app_nil_r, length_map. }
  split; [apply cycle_starts|]. split; [|reflexivity].
  intros other Hother. rewrite cycle_eq, (queries_healthy _ Hother).
  cbn [fst ending]. rewrite executed_app, executed_answered. reflexivity.
Qed.

End Store.

(** *** A store that fails in its third cycle *)

Definition table_missing : Raised :=
  {| is_Exception := true; str := "Code: 60. DB::Exception: Table events does not exist" |}.

Definition fails_in_third_cycle (c : nat) (q : Query) : Reply Z :=
  match c, q with
  | 2%nat, summarise_query => Raises table_missing
  | _, _ => Result [[Z.of_nat c]]
  end.

(** [str] of a tuple of integers: a tuple of one element is printed with
    a comma before the closing parenthesis. *)
Definition show_row (row : list Z) : string :=
  match row with
  | [x] => "(" +:+ Py.str_int x +:+ ",)"
  | _ => "(" +:+ String.concat ", " (map Py.str_int row) +:+ ")"
  end.

(** [str] of a list of tuples of integers. *)
Definition show_rows (rows : list (list Z)) : string :=
  "[" +:+ String.concat ", " (map show_row rows) +:+ "]".

Example show_rows_samples :
  show_rows [] = "[]"
  /\ show_rows [[7]] = "[(7,)]"
  /\ show_rows [[1; 2]; [3; 4]] = "[(1, 2), (3, 4)]"
  /\ show_rows [[]] = "[()]".
Proof. repeat split. Qed.

Example third_cycle :
  cycle Py.str_int show_rows (fails_in_third_cycle 2)
  = ([Exec storage_query; Log INFO "Storage Query Result: 2";
      Exec ingestion_lag_query; Log INFO "Ingestion Lag Query Result: [(2,)]";
      Exec summarise_query;
      Log ERROR "Failed to execute queries: Code: 60. DB::Exception: Table events does not exist";
      Sleep 10],
     inr tt).
Proof. reflexivity. Qed.

Example fourth_cycle :
  cycle Py.str_int show_rows (fails_in_third_cycle 3)
  = ([Exec storage_query; Log INFO "Storage Query Result: 3";
      Exec ingestion_lag_query; Log INFO "Ingestion Lag Query Result: [(3,)]";
      Exec summarise_query; Log INFO "Other Query Result: [(3,)]";
      Exec event_count_query; Log INFO "Other Query Result: [(3,)]";
      Exec duration_query; Log INFO "Duration Query Result: [(3,)]";
      Sleep 10],
     inr tt).
Proof. reflexivity. Qed.

(** An empty storage result: the subscript raises, the handler logs. *)
Example empty_storage_result :
  cycle Py.str_int show_rows (fun _ => Result [])
  = ([Exec storage_query; Log ERROR "Failed to execute queries: list index out of range";
      Sleep 10],
     inr tt).
Proof. reflexivity. Qed.

(** [get_client] is called before the loop, outside the [try]: an
    exception of it leaves [monitor_queries]. *)
Example connection_refused :
  monitor_queries Py.str_int show_rows fails_in_third_cycle
                  (Some {| is_Exception := true; str := "Connection refused" |}) 10
  = ([Log INFO "Connecting to ClickHouse..."; Connect],
     inl {| is_Exception := true; str := "Connection refused" |}).
Proof. reflexivity. Qed.

Lemma monitor_survives_failures_witness :
  snd (while_true Py.str_int show_rows fails_in_third_cycle 10 0) = inr tt
  /\ List.length (logged ERROR
                    (fst (while_true Py.str_int show_rows fails_in_third_cycle 10 0)))
     = 1%nat.
Proof.
  destruct (monitor_survives_failures Z Py.str_int show_rows fails_in_third_cycle 10 0)
    as (Hloop & _).
  - intros c q e. unfold fails_in_third_cycle.
    destruct c as [|[|[|c]]]; destruct q; try discriminate.
    intros [= <-]. reflexivity.
  - rewrite Hloop. split; reflexivity.
Defined.

Lemma cycle_aborts_at_failure_witness :
  executed (fst (cycle Py.str_int show_rows (fails_in_third_cycle 2)))
  = [storage_query; ingestion_lag_query] ++ [summarise_query]
  /\ List.length (logged INFO (fst (cycle Py.str_int show_rows (fails_in_third_cycle 2))))
     = 2%nat.
Proof.
  destruct (cycle_aborts_at_failure Z Py.str_int show_rows (fails_in_third_cycle 2)
              [storage_query; ingestion_lag_query]
              [event_count_query; duration_query]
              summarise_query table_missing)
    as (_ & Hexecuted & Hlogged & _).
  - reflexivity.
  - intros q' [<- | [<- | []]]; eexists; reflexivity.
  - intros _. exists 2, [], []. reflexivity.
  - reflexivity.
  - reflexivity.
  - split; [exact Hexecuted | exact Hlogged].
Defined.

End MonitorFacts.

(* ================================================================= *)
(** ** More on the event synthesizer *)

Module SynthesizerMore.
Import Ingest.

(** X1.  Whatever the index, negative ones included, the synthesized
    event has [bytes_transferred] between 100 and 1099, [duration_ms]
    between 50 and 249, a [status_code] of 200, 300 or 400, the source
    ["web"] for an even index and ["mobile"] for an odd one, and a
    [test_group] that is ["group_"] followed by one decimal digit. *)
Theorem generate_event_ranges (uuid4 : string) (i : Z) :
  exists e : Event,
    generate_event uuid4 i = Some e
    /\ 100 <= bytes_transferred (properties e) <= 1099
    /\ 50 <= duration_ms (properties e) <= 249
    /\ In (status_code (properties e)) [200; 300; 400]
    /\ source e = (if Z.even i then "web" else "mobile")
    /\ In (test_group (properties e))
          ["group_0"; "group_1"; "group_2"; "group_3"; "group_4";
           "group_5"; "group_6"; "group_7"; "group_8"; "group_9"].
Proof.
  eexists. split; [apply SynthesizerFacts.generate_event_eq|].
  cbn [SynthesizerFacts.event_of properties bytes_transferred duration_ms
       status_code source test_group].
  pose proof (Z.mod_pos_bound i 1000 ltac:(lia)).
  pose proof (Z.mod_pos_bound i 200 ltac:(lia)).
  pose proof (Z.mod_pos_bound i 3 ltac:(lia)) as H3.
  pose proof (Z.mod_pos_bound i 10 ltac:(lia)) as H10.
  split; [lia|]. split; [lia|]. split; [|split].
  - assert (C : i mod 3 = 0 \/ i mod 3 = 1 \/ i mod 3 = 2) by lia.
    destruct C as [-> | [-> | ->]]; cbn; tauto.
  - rewrite (Zmod_even i). destruct (Z.even i); reflexivity.
  - assert (C : i mod 10 = 0 \/ i mod 10 = 1 \/ i mod 10 = 2 \/ i mod 10 = 3
                \/ i mod 10 = 4 \/ i mod 10 = 5 \/ i mod 10 = 6 \/ i mod 10 = 7
                \/ i mod 10 = 8 \/ i mod 10 = 9) by lia.
    repeat (destruct C as [-> | C]; [cbn; tauto|]). rewrite C. cbn; tauto.
Qed.

(** X2.  Two synthesized events have the same content (everything but
    the identifier) exactly when their indices are congruent modulo
    3000: the sequence of contents repeats with period 3000 and does not
    repeat earlier. *)
Theorem generate_event_period (u1 u2 : string) (i j : Z) (e1 e2 : Event) :
  generate_event u1 i = Some e1 ->
  generate_event u2 j = Some e2 ->
  (content e1 = content e2 <-> i mod 3000 = j mod 3000).
Proof.
  rewrite !SynthesizerFacts.generate_event_eq. intros [= <-] [= <-].
  unfold content, SynthesizerFacts.event_of.
  cbn [event_name external_customer_id source properties].
  split.
  - intros H.
    pose proof (f_equal (fun c => bytes_transferred (snd c)) H) as Hb.
    pose proof (f_equal (fun c => status_code (snd c)) H) as Hs.
    cbn [snd bytes_transferred status_code] in Hb, Hs. clear H.
    assert (i mod 1000 = j mod 1000) by lia.
    assert (i mod 3 = j mod 3) by lia.
    clear Hb Hs. Z.to_euclidean_division_equations. lia.
  - intros H.
    assert (H2 : i mod 2 = j mod 2) by (Z.to_euclidean_division_equations; lia).
    assert (H1000 : i mod 1000 = j mod 1000) by (Z.to_euclidean_division_equations; lia).
    assert (H200 : i mod 200 = j mod 200) by (Z.to_euclidean_division_equations; lia).
    assert (H3 : i mod 3 = j mod 3) by (Z.to_euclidean_division_equations; lia).
    assert (H10 : i mod 10 = j mod 10) by (Z.to_euclidean_division_equations; lia).
    now rewrite H2, H1000, H200, H3, H10.
Qed.

Lemma generate_event_period_witness :
  content (SynthesizerFacts.event_of "a" 7) = content (SynthesizerFacts.event_of "b" 3007)
  <-> 7 mod 3000 = 3007 mod 3000.
Proof.
  apply (generate_event_period "a" "b" 7 3007); reflexivity.
Defined.

End SynthesizerMore.

(* ================================================================= *)
(** ** More on the poster *)

Module PosterMore.
Import Ingest.
Import PosterFacts.

(** The time slept in a trace, in milliseconds. *)
Fixpoint slept (trace : list Effect) : Z :=
  match trace with
  | [] => 0
  | Sleep ms :: rest => ms + slept rest
  | _ :: rest => slept rest
  end.

(** The line that ends a call on a status that is not retried. *)
Definition final_line (ev : Event) (s : Z) (text : string) : Effect :=
  if s =? 202
  then Log INFO ("Event ingested successfully: " +:+ event_id ev)
  else Log ERROR ("Unexpected status code: " +:+ Py.str_int s +:+ " - " +:+ text).

Lemma slept_app (t1 t2 : list Effect) : slept (t1 ++ t2) = slept t1 + slept t2.
Proof.
  induction t1 as [|x t1 IH]; [reflexivity|].
  destruct x; cbn [app slept]; rewrite IH; lia.
Qed.

Lemma slept_timing (trace : list Effect) : slept (timing trace) = slept trace.
Proof.
  unfold timing. induction trace as [|x t IH]; [reflexivity|].
  destruct x; cbn [filter is_log negb slept]; rewrite ?IH; reflexivity.
Qed.

Lemma slept_backoff_schedule ev b n :
  slept (backoff_schedule ev b n) = b * (2 ^ Z.of_nat n - 1).
Proof.
  revert b. induction n as [|n IH]; intros b.
  - cbn. lia.
  - rewrite backoff_schedule_S. cbn [slept]. rewrite IH.
    rewrite Nat2Z.inj_succ, Z.pow_succ_r by lia. ring.
Qed.

Lemma attempt_decisive ev s text r b :
  s <> 429 -> s <> 500 ->
  attempt ev (Response s text) r b
  = ([Post ev; final_line ev s text], Return (s =? 202)).
Proof.
  intros H1 H2. unfold final_line.
  destruct (Z.eqb_spec s 202) as [-> | H0]; [reflexivity|].
  now apply attempt_other.
Qed.

Section Loops.
Variable max_retries : Z.
Variable server : nat -> Reply.

(** The run up to the first reply that is not retried. *)
Lemma post_loop_decisive (k : nat) :
  forall fuel ev made r b s text,
    (k < fuel)%nat ->
    r + Z.of_nat k <= max_retries ->
    (forall j, (j < k)%nat -> retried (server (made + j)) = true) ->
    server (made + k) = Response s text ->
    s <> 429 -> s <> 500 ->
    exists earlier,
      post_loop max_retries server fuel ev made r b
      = Some (earlier ++ [final_line ev s text], s =? 202)
      /\ timing (earlier ++ [final_line ev s text])
         = backoff_schedule ev b k ++ [Post ev].
Proof.
  induction k as [|k IH]; intros fuel ev made r b s text Hfuel Hr Hall Hk H1 H2;
    (destruct fuel as [|fuel]; [lia|]); rewrite post_loop_step by lia.
  - rewrite Nat.add_0_r in Hk. rewrite Hk, attempt_decisive by assumption.
    exists [Post ev]. split; [reflexivity|].
    unfold final_line. destruct (s =? 202); reflexivity.
  - assert (H0 : retried (server made) = true)
      by (rewrite <- (Nat.add_0_r made); apply Hall; lia).
    destruct (attempt_retried ev _ r b H0) as (lines & -> & Hlines & _).
    destruct (IH fuel ev (S made) (r + 1) (b * 2) s text) as (earlier & -> & Htiming);
      try assumption; try lia.
    { intros j Hj. replace (S made + j)%nat with (made + S j)%nat by lia.
      apply Hall. lia. }
    { replace (S made + k)%nat with (made + S k)%nat by lia. exact Hk. }
    exists ((Post ev :: lines ++ [Sleep b]) ++ earlier).
    split; [now rewrite app_assoc|].
    rewrite backoff_schedule_S. cbn [app]. rewrite <- Htiming.
    unfold timing in *. cbn [filter is_log negb app].
    rewrite !filter_app, Hlines. reflexivity.
Qed.

(** A run that returns [True] has met a 202 within its budget, after
    replies that were all retried. *)
Lemma post_loop_true fuel ev made r b trace :
  post_loop max_retries server fuel ev made r b = Some (trace, true) ->
  exists k text,
    r + Z.of_nat k <= max_retries
    /\ (forall j, (j < k)%nat -> retried (server (made + j)) = true)
    /\ server (made + k) = Response 202 text.
Proof.
  revert made r b trace. induction fuel as [|fuel IH]; intros made r b trace.
  - cbn [post_loop]. destruct (r <=? max_retries); discriminate.
  - destruct (Z.leb_spec r max_retries) as [Hle | Hgt];
      [|rewrite post_loop_over by lia; discriminate].
    rewrite post_loop_step by assumption.
    destruct (server made) as [s text | e] eqn:Hreply.
    + destruct (status_cases s) as [-> | [Hs | (H1 & H2 & H3)]].
      * intros _. exists 0%nat, text. rewrite Nat.add_0_r.
        split; [lia|]. split; [intros j Hj; lia | exact Hreply].
      * rewrite attempt_429_500 by assumption.
        destruct (post_loop max_retries server fuel ev (S made) (r + 1) (b * 2))
          as [[later res]|] eqn:Hlater; [|discriminate].
        intros [= _ ->]. destruct (IH _ _ _ _ Hlater) as (k & text' & Hk & Hall & H202).
        exists (S k), text'. split; [lia|]. split.
        -- intros [|j] Hj.
           ++ rewrite Nat.add_0_r, Hreply. cbn [retried].
              destruct Hs as [-> | ->]; reflexivity.
           ++ replace (made + S j)%nat with (S made + j)%nat by lia. apply Hall. lia.
        -- replace (made + S k)%nat with (S made + k)%nat by lia. exact H202.
      * rewrite attempt_other by assumption. discriminate.
    + cbn [attempt].
      destruct (post_loop max_retries server fuel ev (S made) (r + 1) (b * 2))
        as [[later res]|] eqn:Hlater; [|discriminate].
      intros [= _ ->]. destruct (IH _ _ _ _ Hlater) as (k & text' & Hk & Hall & H202).
      exists (S k), text'. split; [lia|]. split.
      * intros [|j] Hj.
        -- rewrite Nat.add_0_r, Hreply. reflexivity.
        -- replace (made + S j)%nat with (S made + j)%nat by lia. apply Hall. lia.
      * replace (made + S k)%nat with (S made + k)%nat by lia. exact H202.
Qed.

(** What no run exceeds. *)
Lemma post_loop_bounds fuel ev made r b trace result :
  post_loop max_retries server fuel ev made r b = Some (trace, result) ->
  (List.length (requests trace) <= Z.to_nat (max_retries + 1 - r))%nat
  /\ (List.length (sleeps trace) <= List.length (requests trace))%nat
  /\ Forall (fun x => x = Post ev) (requests trace)
  /\ (0 <= b -> 0 <= slept trace <= b * (2 ^ Z.of_nat (List.length (requests trace)) - 1)).
Proof.
  revert made r b trace result.
  induction fuel as [|fuel IH]; intros made r b trace result.
  - cbn [post_loop]. destruct (r <=? max_retries); [discriminate|].
    intros [= <- <-]. cbn. repeat split; (lia || constructor).
  - destruct (Z.leb_spec r max_retries) as [Hle | Hgt].
    2:{ rewrite post_loop_over by lia. intros [= <- <-]. cbn.
        repeat split; (lia || constructor). }
    rewrite post_loop_step by assumption.
    assert (Hdone : forall s text, s <> 429 -> s <> 500 ->
              server made = Response s text ->
              attempt ev (server made) r b
              = ([Post ev; final_line ev s text], Return (s =? 202))).
    { intros s text H1 H2 ->. now apply attempt_decisive. }
    assert (Hround : forall lines,
              timing lines = [] ->
              attempt ev (server made) r b
              = (Post ev :: lines ++ [Sleep b], Continue (r + 1) (b * 2)) ->
              match attempt ev (server made) r b with
              | (effects, Return res) => Some (effects, res)
              | (effects, Continue r' b') =>
                  match post_loop max_retries server fuel ev (S made) r' b' with
                  | None => None
                  | Some (later, res) => Some (effects ++ later, res)
                  end
              end = Some (trace, result) ->
              (List.length (requests trace) <= Z.to_nat (max_retries + 1 - r))%nat
              /\ (List.length (sleeps trace) <= List.length (requests trace))%nat
              /\ Forall (fun x => x = Post ev) (requests trace)
              /\ (0 <= b ->
                  0 <= slept trace
                  <= b * (2 ^ Z.of_nat (List.length (requests trace)) - 1))).
    { intros lines Hlines ->.
      destruct (post_loop max_retries server fuel ev (S made) (r + 1) (b * 2))
        as [[later res]|] eqn:Hlater; [|discriminate].
      intros [= <- <-]. destruct (IH _ _ _ _ _ Hlater) as (Hreq & Hsl & Hall & Htime).
      assert (Hl : requests lines = [] /\ sleeps lines = [] /\ slept lines = 0).
      { clear -Hlines. unfold timing, requests, sleeps in *.
        induction lines as [|x l IHl]; [repeat split|].
        destruct x; cbn in *; try discriminate. now apply IHl. }
      destruct Hl as (Hl1 & Hl2 & Hl3).
      unfold requests, sleeps in *. cbn [app filter is_post is_sleep slept].
      rewrite <- !app_assoc, !filter_app, Hl1, Hl2, !slept_app, Hl3.
      cbn [app filter is_post is_sleep slept List.length].
      split; [lia|]. split; [lia|]. split; [constructor; [reflexivity | exact Hall]|].
      intros Hb. specialize (Htime ltac:(lia)).
      rewrite Nat2Z.inj_succ, Z.pow_succ_r by lia. nia. }
    destruct (server made) as [s text | e] eqn:Hreply.
    + destruct (Z.eq_dec s 429) as [-> | H1]; [|destruct (Z.eq_dec s 500) as [-> | H2]].
      * apply (Hround []); reflexivity.
      * apply (Hround []); reflexivity.
      * rewrite (Hdone s text H1 H2 eq_refl). intros [= <- <-].
        unfold final_line. destruct (s =? 202); cbn.
        all: repeat split; try lia; repeat constructor.
    + apply (Hround [Log ERROR ("Failed to post event: " +:+ e)]); reflexivity.
Qed.

End Loops.

(** X3.  When the replies to the first [k] requests are retried ones
    (429, 500 or an exception), [k] is within the budget, and the reply
    number [k] has a status that is neither 429 nor 500, the call makes
    [k + 1] requests with the sleeps [b], [2 b], ... between them, does not
    sleep after the last one, ends with the line of that status (the
    success line for 202, the error line otherwise) and returns [True]
    exactly for 202. *)
Theorem post_event_until_decisive (max_retries initial_backoff : Z)
        (server : nat -> Reply) (ev : Event) (k : nat) (s : Z) (text : string) :
  Z.of_nat k <= max_retries ->
  (forall j, (j < k)%nat -> retried (server j) = true) ->
  server k = Response s text ->
  s <> 429 -> s <> 500 ->
  exists earlier,
    post_event_with max_retries initial_backoff server ev
    = Some (earlier ++ [final_line ev s text], s =? 202)
    /\ timing (earlier ++ [final_line ev s text])
       = backoff_schedule ev initial_backoff k ++ [Post ev]
    /\ List.length (requests (earlier ++ [final_line ev s text])) = S k.
Proof.
  intros Hk Hall Hreply H1 H2.
  destruct (post_loop_decisive max_retries server k (S (Z.to_nat max_retries)) ev
              0%nat 0 initial_backoff s text) as (earlier & Hrun & Htiming);
    try assumption; try lia.
  exists earlier. split; [exact Hrun|]. split; [exact Htiming|].
  rewrite <- requests_timing, Htiming.
  unfold requests. rewrite filter_app, length_app.
  fold (requests (backoff_schedule ev initial_backoff k)).
  rewrite backoff_schedule_requests. cbn. lia.
Qed.

Lemma post_event_until_decisive_witness :
  exists earlier,
    post_event (fun n => match n with O => Response 429 "" | _ => Response 202 "" end) sample
    = Some (earlier ++ [final_line sample 202 ""], true)
    /\ timing (earlier ++ [final_line sample 202 ""])
       = [Post sample; Sleep 100; Post sample].
Proof.
  destruct (post_event_until_decisive MAX_RETRIES INITIAL_BACKOFF
              (fun n => match n with O => Response 429 "" | _ => Response 202 "" end)
              sample 1 202 "") as (earlier & Hrun & Htiming & _).
  - unfold MAX_RETRIES. lia.
  - intros [|j] Hj; [reflexivity | lia].
  - reflexivity.
  - discriminate.
  - discriminate.
  - exists earlier. split; [exact Hrun | exact Htiming].
Defined.

(** X4.  [post_event] returns [True] exactly when one of the first
    [max_retries + 1] replies is a 202 and every reply before it is a
    retried one. *)
Theorem post_event_accepts_iff (max_retries initial_backoff : Z)
        (server : nat -> Reply) (ev : Event) :
  (exists trace, post_event_with max_retries initial_backoff server ev = Some (trace, true))
  <->
  (exists k text,
      Z.of_nat k <= max_retries
      /\ (forall j, (j < k)%nat -> retried (server j) = true)
      /\ server k = Response 202 text).
Proof.
  split.
  - intros [trace Hrun]. apply post_loop_true in Hrun.
    destruct Hrun as (k & text & Hk & Hall & H202).
    exists k, text. split; [lia|]. split; assumption.
  - intros (k & text & Hk & Hall & H202).
    destruct (post_loop_decisive max_retries server k (S (Z.to_nat max_retries)) ev
                0%nat 0 initial_backoff 202 text) as (earlier & Hrun & _);
      try assumption; try lia.
    eexists. exact Hrun.
Qed.

(** X5.  Whatever the server replies, [post_event] returns, makes at
    most [max_retries + 1] requests (none when [max_retries] is negative),
    sleeps at most once per request, and every request carries the event
    it was called with. *)
Theorem post_event_within_budget (max_retries initial_backoff : Z)
        (server : nat -> Reply) (ev : Event) :
  exists trace result,
    post_event_with max_retries initial_backoff server ev = Some (trace, result)
    /\ Z.of_nat (List.length (requests trace)) <= Z.max 0 (max_retries + 1)
    /\ (List.length (sleeps trace) <= List.length (requests trace))%nat
    /\ Forall (fun x => x = Post ev) (requests trace).
Proof.
  destruct (post_event_returns max_retries initial_backoff server ev)
    as (trace & result & Hrun).
  exists trace, result. split; [exact Hrun|].
  destruct (post_loop_bounds _ _ _ _ _ _ _ _ _ Hrun) as (Hreq & Hsl & Hall & _).
  split; [lia|]. split; assumption.
Qed.

(** X6.  With a backoff and a budget that are not negative, a call
    sleeps at most [initial_backoff * (2^(max_retries + 1) - 1)]
    milliseconds in all, and exactly that long when every reply within
    the budget is a retried one (300 ms with the constants of the
    script). *)
Theorem post_event_sleeps_at_most (max_retries initial_backoff : Z)
        (server : nat -> Reply) (ev : Event) :
  0 <= initial_backoff ->
  0 <= max_retries ->
  exists trace result,
    post_event_with max_retries initial_backoff server ev = Some (trace, result)
    /\ 0 <= slept trace <= initial_backoff * (2 ^ (max_retries + 1) - 1)
    /\ ((forall k, (k <= Z.to_nat max_retries)%nat -> retried (server k) = true) ->
        slept trace = initial_backoff * (2 ^ (max_retries + 1) - 1))
    /\ INITIAL_BACKOFF * (2 ^ (MAX_RETRIES + 1) - 1) = 300.
Proof.
  intros Hb Hmax.
  destruct (post_event_returns max_retries initial_backoff server ev)
    as (trace & result & Hrun).
  exists trace, result. split; [exact Hrun|].
  destruct (post_loop_bounds _ _ _ _ _ _ _ _ _ Hrun) as (Hreq & _ & _ & Htime).
  specialize (Htime Hb). split; [|split; [|reflexivity]].
  - split; [lia|]. etransitivity; [apply Htime|].
    apply Z.mul_le_mono_nonneg_l; [assumption|].
    assert (2 ^ Z.of_nat (List.length (requests trace)) <= 2 ^ (max_retries + 1))
      by (apply Z.pow_le_mono_r; lia).
    lia.
  - intros Hall.
    destruct (post_loop_all_retried max_retries server (S (Z.to_nat max_retries))
                ev 0%nat 0 initial_backoff) as (t & Ht & Htiming & _).
    { lia. }
    { intros k Hk. apply Hall. lia. }
    unfold post_event_with in Hrun. rewrite Ht in Hrun. injection Hrun as <- <-.
    rewrite <- slept_timing, Htiming, slept_backoff_schedule.
    replace (Z.of_nat (S (Z.to_nat max_retries))) with (max_retries + 1) by lia.
    reflexivity.
Qed.

Lemma post_event_sleeps_at_most_witness :
  exists trace result,
    post_event (always 500 "") sample = Some (trace, result)
    /\ slept trace = 100 * (2 ^ (1 + 1) - 1).
Proof.
  destruct (post_event_sleeps_at_most MAX_RETRIES INITIAL_BACKOFF (always 500 "") sample)
    as (trace & result & Hrun & _ & Hall & _).
  - unfold INITIAL_BACKOFF. lia.
  - unfold MAX_RETRIES. lia.
  - exists trace, result. split; [exact Hrun|]. apply Hall. intros k _. reflexivity.
Defined.

End PosterMore.

(* ================================================================= *)
(** ** More on the batch scheduler *)

From Stdlib Require Import Permutation.

Module SchedulerMore.
Import Ingest.
Import SchedulerFacts.

(** The scheduler's own steps of a run, and the events that settled. *)
Fixpoint scheduled (labels : list Label) : list Action :=
  match labels with
  | [] => []
  | Scheduler a :: rest => a :: scheduled rest
  | Settles _ :: rest => scheduled rest
  end.

Fixpoint settled (labels : list Label) : list Event :=
  match labels with
  | [] => []
  | Settles e :: rest => e :: settled rest
  | Scheduler _ :: rest => settled rest
  end.

(** The sleeps of the scheduler, in milliseconds. *)
Fixpoint paces (program : list Action) : list Z :=
  match program with
  | [] => []
  | Pace ms :: rest => ms :: paces rest
  | _ :: rest => paces rest
  end.

Definition finished : Pool := {| unsettled := []; todo := [] |}.

(** X7.  A batch size of zero makes [range] raise before any batch is
    made.  With a positive batch size and no event to send ([N <= 0]), or
    with a negative batch size and [N >= 0], the loop body never runs: the
    scheduler logs its start, shuts the pool down and logs its end,
    without a batch and without a sleep. *)
Theorem scheduler_without_batches (uuid4 : Z -> string) (N B : Z) :
  (B = 0 -> seed_events_clickhouse_with uuid4 N B = None)
  /\ ((0 < B /\ N <= 0) \/ (B < 0 /\ 0 <= N) ->
      seed_events_clickhouse_with uuid4 N B
      = Some [Info "Starting event ingestion..."; Shutdown;
              Info "Event ingestion completed"]).
Proof.
  split.
  - intros ->. reflexivity.
  - intros [[HB HN] | [HB HN]]; unfold seed_events_clickhouse_with, Py.range3.
    + destruct (Z.eqb_spec B 0); [lia|]. destruct (Z.ltb_spec 0 B); [|lia].
      replace (Z.to_nat (N - 0)) with 0%nat by lia. reflexivity.
    + destruct (Z.eqb_spec B 0); [lia|]. destruct (Z.ltb_spec 0 B); [lia|].
      replace (Z.to_nat (0 - N)) with 0%nat by lia. reflexivity.
Qed.

Lemma scheduler_without_batches_witness :
  seed_events_clickhouse_with numbered 10 0 = None
  /\ seed_events_clickhouse_with numbered 0 150
     = Some [Info "Starting event ingestion..."; Shutdown;
             Info "Event ingestion completed"].
Proof.
  destruct (scheduler_without_batches numbered 10 0) as [Hzero _].
  destruct (scheduler_without_batches numbered 0 150) as [_ Hnone].
  split; [apply Hzero; reflexivity | apply Hnone; left; lia].
Defined.

Lemma paces_app (p q : list Action) : paces (p ++ q) = paces p ++ paces q.
Proof.
  induction p as [|a p IH]; [reflexivity|].
  destruct a; cbn [app paces]; rewrite IH; reflexivity.
Qed.

Lemma paces_batches (batches : list (list Event)) :
  paces (flat_map (fun batch => [Submit batch; Pace 1000]) batches)
  = repeat 1000 (List.length batches).
Proof.
  induction batches as [|b l IH]; [reflexivity|].
  cbn [flat_map app paces List.length repeat]. now rewrite IH.
Qed.

Lemma batches_end (batches : list (list Event)) :
  batches <> [] ->
  exists earlier batch,
    flat_map (fun b => [Submit b; Pace 1000]) batches
    = earlier ++ [Submit batch; Pace 1000].
Proof.
  induction batches as [|b l IH]; [contradiction|]. intros _.
  destruct l as [|b' l].
  - exists [], b. reflexivity.
  - destruct IH as (earlier & batch & Heq); [discriminate|].
    exists (Submit b :: Pace 1000 :: earlier), batch.
    cbn [flat_map app] in *. now rewrite Heq.
Qed.

(** X8.  For positive [N] and [B] the scheduler sleeps one second after
    every batch, the last one included: [ceil(N / B)] sleeps, the last
    of them right before the shutdown of the pool, so that the run
    sleeps [1000 * ceil(N / B)] ms whatever the pool does (6667 seconds
    with the constants of the script). *)
Theorem scheduler_paces_every_batch (uuid4 : Z -> string) (N B : Z) :
  0 < N -> 0 < B ->
  exists program earlier batch,
    seed_events_clickhouse_with uuid4 N B = Some program
    /\ paces program = repeat 1000 (Z.to_nat ((N + B - 1) / B))
    /\ fold_right Z.add 0 (paces program) = 1000 * ((N + B - 1) / B)
    /\ program = earlier ++ [Submit batch; Pace 1000; Shutdown;
                             Info "Event ingestion completed"]
    /\ (NUM_EVENTS + BATCH_SIZE - 1) / BATCH_SIZE = 6667.
Proof.
  intros HN HB.
  destruct (ceiling N B HB HN) as (Hn & _). cbv zeta in Hn.
  set (batches := map (fun i => map (event uuid4) (indices N B i)) (starts N B)).
  assert (Hlen : List.length batches = Z.to_nat ((N + B - 1) / B)).
  { unfold batches. now rewrite length_map, starts_eq, length_map, length_seq. }
  destruct (batches_end batches) as (earlier & batch & Hend).
  { intros Hnil. rewrite Hnil in Hlen. cbn in Hlen. lia. }
  exists (Info "Starting event ingestion..." :: body uuid4 N B
          ++ [Shutdown; Info "Event ingestion completed"]),
         (Info "Starting event ingestion..." :: earlier), batch.
  split; [apply seed_events_eq; assumption|].
  rewrite body_batches. fold batches.
  assert (Hp : paces (Info "Starting event ingestion..."
                      :: flat_map (fun b => [Submit b; Pace 1000]) batches
                      ++ [Shutdown; Info "Event ingestion completed"])
               = repeat 1000 (Z.to_nat ((N + B - 1) / B))).
  { cbn [paces]. rewrite paces_app, paces_batches, Hlen. cbn. apply app_nil_r. }
  split; [exact Hp|]. split; [|split; [|reflexivity]].
  - rewrite Hp.
    assert (Hsum : forall n, fold_right Z.add 0 (repeat 1000 n) = 1000 * Z.of_nat n).
    { induction n as [|n IHn]; [reflexivity|]. cbn [repeat fold_right]. lia. }
    rewrite Hsum. lia.
  - rewrite Hend. cbn [app]. now rewrite <- app_assoc.
Qed.

Lemma scheduler_paces_every_batch_witness :
  exists program,
    seed_events_clickhouse_with numbered 300 150 = Some program
    /\ fold_right Z.add 0 (paces program) = 1000 * ((300 + 150 - 1) / 150).
Proof.
  destruct (scheduler_paces_every_batch numbered 300 150)
    as (program & _ & _ & Hrun & _ & Hsum & _); [lia | lia |].
  exists program. split; [exact Hrun | exact Hsum].
Defined.

(** *** Runs of the scheduler and the pool *)

(** What the scheduler has done is a prefix of its program, and what
    has settled or is unsettled is what was unsettled or submitted. *)
Lemma run_accounts s labels s' :
  run s labels s' ->
  todo s = scheduled labels ++ todo s'
  /\ Permutation (settled labels ++ unsettled s')
                 (unsettled s ++ List.concat (dispatched (scheduled labels))).
Proof.
  induction 1 as [s | s l s1 ls s2 Hstep Hrun [IHt IHp]].
  - cbn. rewrite app_nil_r. split; reflexivity.
  - destruct Hstep; cbn [todo unsettled scheduled settled dispatched List.concat app] in *.
    + split; [now rewrite IHt | exact IHp].
    + split; [now rewrite IHt|]. now rewrite app_assoc.
    + split; [now rewrite IHt | exact IHp].
    + split; [now rewrite IHt | exact IHp].
    + split; [exact IHt|]. rewrite <- app_assoc. cbn [app].
      apply Permutation_cons_app. now rewrite app_assoc.
Qed.

(** X9.  In every run of the scheduler and the pool that reaches the end
    of the program, the scheduler has done the steps of its program in
    order, and the events that settled are, up to their order, the events
    of the batches: every submitted event settled exactly once and nothing
    else did. *)
Theorem every_event_settles_once (uuid4 : Z -> string) (N B : Z) :
  0 < B ->
  exists program,
    seed_events_clickhouse_with uuid4 N B = Some program
    /\ forall labels s,
         run (start program) labels s ->
         todo s = [] ->
         scheduled labels = program
         /\ Permutation (settled labels) (List.concat (dispatched program)).
Proof.
  intros HB. eexists. split; [apply seed_events_eq; assumption|].
  intros labels s Hrun Hend.
  assert (Hq : unsettled s = []).
  { apply run_joined in Hrun.
    - destruct Hrun as [H | [H _]]; [|exact H]. rewrite Hend in H. discriminate H.
    - left. cbn [start todo shutdown_ahead]. rewrite body_batches.
      apply shutdown_ahead_batches. reflexivity. }
  destruct (run_accounts _ _ _ Hrun) as [Ht Hp].
  rewrite Hend, app_nil_r in Ht. rewrite Hq, app_nil_r in Hp.
  cbn [start todo unsettled app] in Ht, Hp.
  split; [now symmetry|]. now rewrite Ht.
Qed.

Lemma every_event_settles_once_witness :
  exists program,
    seed_events_clickhouse_with numbered 2 1 = Some program
    /\ Permutation [event numbered 1; event numbered 0]
                   (List.concat (dispatched program)).
Proof.
  destruct (every_event_settles_once numbered 2 1) as (program & Hrun & Hall); [lia|].
  exists program. split; [exact Hrun|].
  injection Hrun as <-.
  apply (Hall [Scheduler (Info "Starting event ingestion...");
               Scheduler (Submit [event numbered 0]); Scheduler (Pace 1000);
               Scheduler (Submit [event numbered 1]);
               Settles (event numbered 1);
               Scheduler (Pace 1000);
               Settles (event numbered 0);
               Scheduler Shutdown;
               Scheduler (Info "Event ingestion completed")] finished).
  - eapply run_cons; [apply step_info|].
    eapply run_cons; [apply (step_submit _ [])|].
    eapply run_cons; [apply step_pace|].
    eapply run_cons; [apply (step_submit _ [_])|].
    eapply run_cons; [apply (step_settles [_] _ [])|].
    eapply run_cons; [apply step_pace|].
    eapply run_cons; [apply (step_settles [] _ [])|].
    eapply run_cons; [apply step_shutdown|].
    eapply run_cons; [apply step_info|]. apply run_nil.
  - reflexivity.
Defined.

End SchedulerMore.

(* ================================================================= *)
(** ** More on the aggregate monitor *)

Module MonitorMore.
Import Monitor.
Import MonitorFacts.

(** The sleeps of a trace, in milliseconds. *)
Fixpoint naps (trace : list Effect) : list Z :=
  match trace with
  | [] => []
  | Sleep ms :: rest => ms :: naps rest
  | _ :: rest => naps rest
  end.

Lemma naps_app (t1 t2 : list Effect) : naps (t1 ++ t2) = naps t1 ++ naps t2.
Proof.
  induction t1 as [|x t1 IH]; [reflexivity|].
  destruct x; cbn [app naps]; rewrite IH; reflexivity.
Qed.

Section Store.
Variable Value : Type.
Variable fmt_value : Value -> string.
Variable fmt_rows : list (list Value) -> string.

(** X11.  An exception of [get_client] is not caught, whatever its
    class: [monitor_queries] logs that it connects and raises, without a
    query, an error line or a sleep.  When [get_client] returns and the
    failures of the store are of class [Exception], [monitor_queries] logs
    its two start lines, goes through its cycles one after the other and
    is still running after any number of them. *)
Theorem monitor_queries_runs (store : nat -> Query -> Reply Value) (n : nat) :
  (forall c q e, store c q = Raises e -> is_Exception e = true) ->
  monitor_queries fmt_value fmt_rows store None n
  = ([Log INFO "Connecting to ClickHouse..."; Connect;
      Log INFO "Starting query monitoring..."]
     ++ flat_map (fun c => fst (cycle fmt_value fmt_rows (store c))) (seq 0 n),
     inr tt)
  /\ (forall e,
        monitor_queries fmt_value fmt_rows store (Some e) n
        = ([Log INFO "Connecting to ClickHouse..."; Connect], inl e)).
Proof.
  intros Hexc.
  unfold monitor_queries, logger_info, emit, raise, ret, bind. split.
  - now rewrite while_true_caught by assumption.
  - reflexivity.
Qed.

(** X12.  A storage result without rows, or whose first row is empty,
    makes the subscript [result_rows[0][0]] raise [IndexError]: the cycle
    logs it as a failed query, runs none of the other four queries,
    sleeps and returns. *)
Theorem empty_storage_result_aborts_cycle (store : Query -> Reply Value)
        (rows : list (list Value)) :
  store storage_query = Result rows ->
  rows = [] \/ (exists rest, rows = [] :: rest) ->
  exists detail,
    cycle fmt_value fmt_rows store
    = ([Exec storage_query;
        Log ERROR ("Failed to execute queries: " +:+ detail +:+ " index out of range");
        Sleep QUERY_INTERVAL],
       inr tt)
    /\ (detail = "list" \/ detail = "tuple").
Proof.
  intros Hstore [-> | [rest ->]].
  - exists "list". split; [|now left].
    unfold cycle, queries, client_query, subscript. rewrite Hstore.
    reflexivity.
  - exists "tuple". split; [|now right].
    unfold cycle, queries, client_query, subscript, bind. rewrite Hstore.
    rewrite getitem_0. reflexivity.
Qed.

(** What one cycle leaves in the trace, whatever the store answers. *)
Lemma cycle_accounts (store : Query -> Reply Value) :
  (forall q e, store q = Raises e -> is_Exception e = true) ->
  let trace := fst (cycle fmt_value fmt_rows store) in
  List.length (executed trace)
  = (List.length (logged INFO trace) + List.length (logged ERROR trace))%nat
  /\ (1 <= List.length (executed trace) <= 5)%nat
  /\ (List.length (logged ERROR trace) <= 1)%nat
  /\ naps trace = [QUERY_INTERVAL].
Proof.
  intros Hexc. cbv zeta. rewrite cycle_caught by assumption.
  unfold queries, client_query, subscript, logger_info, bind, emit, raise, ret.
  destruct (store storage_query) as [rows | e1];
    [|cbn; repeat split; lia].
  rewrite getitem_0.
  destruct rows as [|[|v row] rows]; cbn [hd_error]; rewrite ?getitem_0;
    cbn [hd_error]; [cbn; repeat split; lia | cbn; repeat split; lia |].
  destruct (store ingestion_lag_query); [|cbn; repeat split; lia].
  destruct (store summarise_query); [|cbn; repeat split; lia].
  destruct (store event_count_query); [|cbn; repeat split; lia].
  destruct (store duration_query); cbn; repeat split; lia.
Qed.

(** X13.  When the failures of the store are of class [Exception], then
    in the first [n] cycles of the loop every executed query is
    accounted for by one log line, the line of its result or the error
    line of its cycle; every cycle executes between one and five queries,
    logs at most one error, and sleeps [QUERY_INTERVAL] once. *)
Theorem monitor_accounts (store : nat -> Query -> Reply Value) (n k : nat) :
  (forall c q e, store c q = Raises e -> is_Exception e = true) ->
  let trace := fst (while_true fmt_value fmt_rows store n k) in
  List.length (executed trace)
  = (List.length (logged INFO trace) + List.length (logged ERROR trace))%nat
  /\ (n <= List.length (executed trace) <= 5 * n)%nat
  /\ (List.length (logged ERROR trace) <= n)%nat
  /\ naps trace = repeat QUERY_INTERVAL n.
Proof.
  intros Hexc. cbv zeta. rewrite while_true_caught by assumption. cbn [fst].
  revert k. induction n as [|n IH]; intros k.
  - cbn. repeat split; lia.
  - cbn [seq flat_map repeat].
    rewrite executed_app, !logged_app, naps_app, !length_app.
    destruct (cycle_accounts (store k) (Hexc k)) as (H1 & H2 & H3 & ->).
    destruct (IH (S k)) as (I1 & I2 & I3 & ->).
    repeat split; lia.
Qed.

(** X14.  An exception that is not of class [Exception] (a
    [KeyboardInterrupt], say) ends the loop.  When the cycles before
    cycle [c] only meet failures of class [Exception], and in cycle [c]
    the queries [earlier] return and the next one, [q], raises such an
    [e], the loop raises [e]: its trace is the cycles before [c], the
    queries [earlier] with their result lines, then [q]; no error line,
    no sleep and no further cycle follow. *)
Theorem interrupt_ends_monitor (store : nat -> Query -> Reply Value) (n k c : nat)
        (earlier later : list Query) (q : Query) (e : Raised) :
  (k <= c < k + n)%nat ->
  (forall c' q' e',
      (k <= c' < c)%nat -> store c' q' = Raises e' -> is_Exception e' = true) ->
  query_order = earlier ++ q :: later ->
  (forall q', In q' earlier -> exists rows, store c q' = Result rows) ->
  (earlier <> [] -> has_first_cell Value (store c)) ->
  store c q = Raises e ->
  is_Exception e = false ->
  while_true fmt_value fmt_rows store n k
  = (flat_map (fun c' => fst (cycle fmt_value fmt_rows (store c'))) (seq k (c - k))
     ++ flat_map (answered Value fmt_value fmt_rows (store c)) earlier ++ [Exec q],
     inl e).
Proof.
  intros Hc Hbefore Horder Hall Hfirst Hq He.
  revert k Hc Hbefore. induction n as [|n IH]; intros k Hc Hbefore; [lia|].
  cbn [Monitor.while_true].
  destruct (Nat.eq_dec k c) as [-> | Hne].
  - rewrite Nat.sub_diag. cbn [seq flat_map app].
    rewrite cycle_eq, (queries_abort _ _ _ (store c) earlier q later e) by assumption.
    rewrite He. reflexivity.
  - rewrite (cycle_caught _ _ _ (store k)).
    2:{ intros q' e' Hraise. apply (Hbefore k q' e'); [lia | exact Hraise]. }
    rewrite IH.
    2:{ lia. }
    2:{ intros c' q' e' Hc'. apply Hbefore. lia. }
    replace (c - k)%nat with (S (c - S k)) by lia.
    cbn [seq flat_map bind].
    rewrite (cycle_caught _ _ _ (store k)).
    2:{ intros q' e' Hraise. apply (Hbefore k q' e'); [lia | exact Hraise]. }
    cbn [fst]. now rewrite <- !app_assoc.
Qed.

End Store.

Definition keyboard_interrupt : Raised :=
  {| is_Exception := false; str := "" |}.

Definition interrupted_in_second_cycle (c : nat) (q : Query) : Reply Z :=
  match c, q with
  | 1%nat, ingestion_lag_query => Raises keyboard_interrupt
  | _, _ => Result [[Z.of_nat c]]
  end.

Example interrupted_monitor :
  while_true Py.str_int show_rows interrupted_in_second_cycle 10 0
  = ([Exec storage_query; Log INFO "Storage Query Result: 0";
      Exec ingestion_lag_query; Log INFO "Ingestion Lag Query Result: [(0,)]";
      Exec summarise_query; Log INFO "Other Query Result: [(0,)]";
      Exec event_count_query; Log INFO "Other Query Result: [(0,)]";
      Exec duration_query; Log INFO "Duration Query Result: [(0,)]";
      Sleep 10;
      Exec storage_query; Log INFO "Storage Query Result: 1";
      Exec ingestion_lag_query],
     inl keyboard_interrupt).
Proof. reflexivity. Qed.

Lemma empty_storage_result_aborts_cycle_witness :
  exists detail,
    cycle Py.str_int show_rows (fun _ => Result [])
    = ([Exec storage_query;
        Log ERROR ("Failed to execute queries: " +:+ detail +:+ " index out of range");
        Sleep QUERY_INTERVAL],
       inr tt)
    /\ (detail = "list" \/ detail = "tuple").
Proof.
  apply (empty_storage_result_aborts_cycle Z Py.str_int show_rows (fun _ => Result []) []);
    [reflexivity | left; reflexivity].
Defined.

Lemma monitor_queries_runs_witness :
  snd (monitor_queries Py.str_int show_rows fails_in_third_cycle None 10) = inr tt
  /\ snd (monitor_queries Py.str_int show_rows fails_in_third_cycle
                          (Some table_missing) 10) = inl table_missing.
Proof.
  destruct (monitor_queries_runs Z Py.str_int show_rows fails_in_third_cycle 10)
    as [Hruns Hfails].
  - intros c q e. unfold fails_in_third_cycle.
    destruct c as [|[|[|c]]]; destruct q; try discriminate.
    intros [= <-]. reflexivity.
  - rewrite Hruns, Hfails. split; reflexivity.
Defined.

Lemma monitor_accounts_witness :
  naps (fst (while_true Py.str_int show_rows fails_in_third_cycle 10 0))
  = repeat QUERY_INTERVAL 10.
Proof.
  destruct (monitor_accounts Z Py.str_int show_rows fails_in_third_cycle 10 0)
    as (_ & _ & _ & Hnaps).
  - intros c q e. unfold fails_in_third_cycle.
    destruct c as [|[|[|c]]]; destruct q; try discriminate.
    intros [= <-]. reflexivity.
  - exact Hnaps.
Defined.

Lemma interrupt_ends_monitor_witness :
  snd (while_true Py.str_int show_rows interrupted_in_second_cycle 10 0)
  = inl keyboard_interrupt.
Proof.
  rewrite (interrupt_ends_monitor Z Py.str_int show_rows interrupted_in_second_cycle
             10 0 1 [storage_query]
             [summarise_query; event_count_query; duration_query]
             ingestion_lag_query keyboard_interrupt).
  - reflexivity.
  - lia.
  - intros c' q' e' Hc'. assert (c' = 0%nat) as -> by lia.
    destruct q'; discriminate.
  - reflexivity.
  - intros q' [<- | []]. eexists; reflexivity.
  - intros _. exists 1, [], []. reflexivity.
  - reflexivity.
  - reflexivity.
Defined.

End MonitorMore.

(* ================================================================= *)
(** ** More on the address of the store *)

Module AddressFacts.
Import Address.

Example split_host_port : split ":" "localhost:9000" = ["localhost"; "9000"].
Proof. reflexivity. Qed.

Example split_empty : split ":" "" = [""].
Proof. reflexivity. Qed.

Example split_trailing : split ":" "a::b:" = ["a"; ""; "b"; ""].
Proof. reflexivity. Qed.

(** The first part of a split: it has no colon, and the string is this
    part alone or this part, a colon and the rest. *)
Lemma split_first (s : string) :
  exists first parts,
    split ":" s = first :: parts
    /\ has_colon first = false
    /\ ((parts = [] /\ s = first /\ has_colon s = false)
        \/ (parts <> [] /\ has_colon s = true
            /\ exists rest, s = first +:+ ":" +:+ rest)).
Proof.
  induction s as [|a s IH].
  - exists "", []. repeat split. left. repeat split.
  - cbn [split has_colon]. destruct (Ascii.eqb_spec a ":") as [-> | Ha].
    + exists "", (split ":" s). repeat split. right.
      split; [destruct IH as (f & p & -> & _); discriminate|].
      split; [reflexivity|]. exists s. reflexivity.
    + destruct IH as (first & parts & -> & Hfirst & Hs).
      exists (String a first), parts. split; [reflexivity|].
      split.
      { cbn [has_colon]. destruct (Ascii.eqb_spec a ":"); [contradiction|].
        exact Hfirst. }
      destruct Hs as [(-> & -> & Hno) | (Hparts & Hyes & rest & ->)].
      * left. repeat split. cbn [orb]. exact Hno.
      * right. split; [exact Hparts|]. split; [exact Hyes|].
        exists rest. reflexivity.
Qed.

Lemma getitem_1 {A} (x : A) (l : list A) : Py.getitem (x :: l) 1 = hd_error l.
Proof.
  unfold Py.getitem, Py.len. cbn [andb Z.leb Z.compare].
  destruct l as [|y l]; [reflexivity|].
  destruct (Z.ltb_spec 1 (Z.of_nat (List.length (x :: y :: l)))) as [_ | H];
    [reflexivity | cbn [List.length] in H; lia].
Qed.

(** X15.  For every address the [host] subscript returns: the host is
    the address up to its first colon (the whole address when there is
    none, the empty string for the empty address of [CONFIG]), and
    whatever follows the colon is not used.  An address made of a host
    without a colon, a colon and anything gives back that host. *)
Theorem host_is_address_up_to_colon (address : string) :
  exists h,
    host address = Some h
    /\ has_colon h = false
    /\ (if has_colon address
        then exists rest, address = h +:+ ":" +:+ rest
        else address = h)
    /\ (forall h' rest,
          has_colon h' = false -> address = h' +:+ ":" +:+ rest -> h = h').
Proof.
  unfold host. rewrite MonitorFacts.getitem_0.
  destruct (split_first address) as (first & parts & -> & Hfirst & Hs).
  exists first. split; [reflexivity|]. split; [exact Hfirst|]. split.
  - destruct Hs as [(_ & <- & ->) | (_ & -> & Hrest)]; [reflexivity | exact Hrest].
  - intros h' rest Hh' Heq.
    destruct Hs as [(_ & _ & Hno) | (_ & _ & rest' & Hrest')].
    + exfalso. rewrite Heq in Hno. clear -Hno.
      induction h' as [|a h' IH]; cbn in Hno; [discriminate|].
      apply orb_false_iff in Hno. now apply IH.
    + rewrite Hrest' in Heq. clear -Hfirst Hh' Heq.
      revert h' Hh' Heq. induction first as [|a first IH]; intros h' Hh' Heq.
      * destruct h' as [|b h']; [reflexivity|].
        cbn in Heq. injection Heq as <- _. cbn in Hh'. discriminate.
      * destruct h' as [|b h'].
        -- cbn in Heq. injection Heq as -> _. cbn in Hfirst. discriminate.
        -- cbn in Heq. injection Heq as <- Heq.
           cbn [has_colon] in Hfirst, Hh'.
           apply orb_false_iff in Hfirst. apply orb_false_iff in Hh'.
           f_equal. apply IH; tauto.
Qed.

Lemma host_is_address_up_to_colon_witness :
  exists h, host "localhost:9000" = Some h /\ h = "localhost".
Proof.
  destruct (host_is_address_up_to_colon "localhost:9000") as (h & Hhost & _ & _ & Hsame).
  exists h. split; [exact Hhost|].
  apply (Hsame "localhost" "9000"); reflexivity.
Defined.

(** X16.  The subscript [[1]] that [dynamodb_replicate.py] takes for
    the port raises [IndexError] exactly when the address has no colon,
    as the empty address of its [CONFIG] has none. *)
Theorem port_needs_a_colon (address : string) :
  (port_field address = None <-> has_colon address = false)
  /\ port_field "" = None.
Proof.
  split; [|reflexivity].
  unfold port_field.
  destruct (split_first address) as (first & parts & -> & _ & Hs).
  rewrite getitem_1.
  destruct Hs as [(-> & _ & ->) | (Hparts & -> & _)].
  - split; reflexivity.
  - destruct parts as [|p parts]; [contradiction|].
    cbn [hd_error]. split; discriminate.
Qed.

End AddressFacts.

(* ================================================================= *)
(** ** More on the launcher *)

Module LauncherFacts.
Import Launcher.

(** X17.  [main] never reaches its [else] branch: without [--mode] and
    with [--mode ingest] it seeds the events, with [--mode query] it runs
    the monitor, and every other value is refused by [argparse] before
    anything is logged. *)
Theorem main_never_logs_invalid_mode (given : option string) :
  match main given with
  | Some steps =>
      (steps = [Logged INFO "Running in ingest mode..."; Seeds]
       /\ (given = None \/ given = Some "ingest"))
      \/ (steps = [Logged INFO "Running in query mode..."; Monitors]
          /\ given = Some "query")
  | None => exists mode, given = Some mode /\ mode <> "ingest" /\ mode <> "query"
  end.
Proof.
  unfold main, parse_mode, choices. destruct given as [mode|]; [|left; auto].
  cbn [existsb].
  destruct (String.eqb_spec mode "ingest") as [-> | Hi]; [left; auto|].
  destruct (String.eqb_spec mode "query") as [-> | Hq]; [right; auto|].
  cbn [orb]. exists mode. auto.
Qed.

End LauncherFacts.
